(** * flocker_backend: the Channel model and its seeder (model/channel.py)

    A shallow embedding of [model/channel.py]: the [Channel] class
    ([__init__], [__repr__], the [name] property, [create], [read]) and
    the seeding routine [initChannels], over an explicit world that holds
    the Python heap, the database tables, the SQLAlchemy session, the
    standard output and the faults the environment may inject. *)

From Stdlib Require Import ZArith String Ascii List DecimalString Lia.
From stdpp Require Import base list strings.

Open Scope Z_scope.

Set Warnings "-register-all".

(** ** Python values *)

(** The values the module handles: [None], booleans, integers, strings,
    lists and string-keyed dictionaries (the JSON-like values a JSON column
    holds).  A dictionary is kept as an association list in insertion
    order, as Python keeps it. *)
Inductive PyVal : Type :=
| PNone
| PBool (b : bool)
| PInt (z : Z)
| PStr (s : string)
| PList (items : list PyVal)
| PDict (items : list (string * PyVal)).

(** Python truth value, as tested by [or]: [None], [False], [0], [''],
    [[]] and [{}] are falsy. *)
Definition truthy (v : PyVal) : bool :=
  match v with
  | PNone => false
  | PBool b => b
  | PInt z => negb (z =? 0)
  | PStr s => negb (String.eqb s EmptyString)
  | PList items => negb (Nat.eqb (length items) 0)
  | PDict items => negb (Nat.eqb (length items) 0)
  end.

(** [a or b]: [a] when it is truthy, [b] otherwise. *)
Definition py_or (a b : PyVal) : PyVal := if truthy a then a else b.


Definition is_none (v : PyVal) : bool :=
  match v with PNone => true | _ => false end.

(** *** [str()] and [repr()] *)

Definition hex_digit (n : nat) : ascii :=
  nth n (list_ascii_of_string "0123456789abcdef") "0"%char.

Definition double_quote : ascii := ascii_of_nat 34.

Definition contains_char (c : ascii) (s : string) : bool :=
  existsb (Ascii.eqb c) (list_ascii_of_string s).

(** [repr(s)] for a string: single quotes unless the string has a single
    quote and no double quote; the quote and the backslash are escaped,
    tab, newline and carriage return have their letter escapes, the other
    control characters are written [\xhh].  Strings are byte strings here
    and the bytes from 0x80 on are left as they are, which is what Python
    prints for the printable characters beyond ASCII only: the results
    below that go through [repr] are stated for ASCII strings. *)
Definition repr_char (quote c : ascii) : string :=
  let n := nat_of_ascii c in
  if Ascii.eqb c quote || Ascii.eqb c "\"%char then String "\"%char (String c EmptyString)
  else if Nat.eqb n 9 then "\t"
  else if Nat.eqb n 10 then "\n"
  else if Nat.eqb n 13 then "\r"
  else if Nat.ltb n 32 || Nat.eqb n 127 then
    String "\"%char (String "x"%char
      (String (hex_digit (Nat.div n 16)) (String (hex_digit (Nat.modulo n 16)) EmptyString)))
  else String c EmptyString.

Definition repr_str (s : string) : string :=
  let quote :=
    if contains_char "'"%char s && negb (contains_char double_quote s)
    then double_quote else "'"%char in
  String quote
    (String.concat EmptyString (map (repr_char quote) (list_ascii_of_string s))
     +:+ String quote EmptyString).

Definition str_of_Z (z : Z) : string := NilZero.string_of_int (Z.to_int z).

Fixpoint py_repr (v : PyVal) : string :=
  match v with
  | PNone => "None"
  | PBool true => "True"
  | PBool false => "False"
  | PInt z => str_of_Z z
  | PStr s => repr_str s
  | PList items => "[" +:+ String.concat ", " (map py_repr items) +:+ "]"
  | PDict items =>
      "{" +:+ String.concat ", "
                (map (fun kv : string * PyVal =>
                        let (k, x) := kv in repr_str k +:+ ": " +:+ py_repr x) items)
          +:+ "}"
  end.

(** What an f-string field [{v}] prints: [str(v)], which is the string
    itself for a string and [repr(v)] for the other values. *)
Definition py_str (v : PyVal) : string :=
  match v with
  | PStr s => s
  | _ => py_repr v
  end.

(** ** Exceptions *)

(** The exception classes in play.  [sqlite3_IntegrityError] is the class
    line 2 imports under the name [IntegrityError]; [sa_IntegrityError]
    is [sqlalchemy.exc.IntegrityError], the class a SQLAlchemy session
    raises when the database refuses a statement for a constraint.
    Signals outside [Exception] (KeyboardInterrupt, SystemExit) are not
    modelled. *)
Inductive ExcClass : Type :=
| Exception_
| AttributeError
| ReferenceError
| ArithmeticError
| OverflowError
| sqlite3_Error
| sqlite3_DatabaseError
| sqlite3_IntegrityError
| sqlite3_OperationalError
| SQLAlchemyError
| StatementError
| DBAPIError
| sa_DatabaseError
| sa_IntegrityError
| sa_OperationalError
| sa_ProgrammingError.

#[global] Instance ExcClass_eq_dec : EqDecision ExcClass.
Proof. solve_decision. Defined.

(** The direct base class. *)
Definition superclass (c : ExcClass) : option ExcClass :=
  match c with
  | Exception_ => None
  | AttributeError => Some Exception_
  | ReferenceError => Some Exception_
  | ArithmeticError => Some Exception_
  | OverflowError => Some ArithmeticError
  | sqlite3_Error => Some Exception_
  | sqlite3_DatabaseError => Some sqlite3_Error
  | sqlite3_IntegrityError => Some sqlite3_DatabaseError
  | sqlite3_OperationalError => Some sqlite3_DatabaseError
  | SQLAlchemyError => Some Exception_
  | StatementError => Some SQLAlchemyError
  | DBAPIError => Some StatementError
  | sa_DatabaseError => Some DBAPIError
  | sa_IntegrityError => Some sa_DatabaseError
  | sa_OperationalError => Some sa_DatabaseError
  | sa_ProgrammingError => Some sa_DatabaseError
  end.

Fixpoint derives (fuel : nat) (c d : ExcClass) : bool :=
  bool_decide (c = d) ||
  match fuel, superclass c with
  | S fuel', Some p => derives fuel' p d
  | _, _ => false
  end.

(** [issubclass(c, d)]; no chain of bases is longer than six. *)
Definition issubclass (c d : ExcClass) : bool := derives 6 c d.

Record Exc : Type := mkExc { exc_class : ExcClass; exc_msg : string }.

Definition isinstance (e : Exc) (c : ExcClass) : bool := issubclass (exc_class e) c.

(** The name [IntegrityError] in this module: [from sqlite3 import IntegrityError]. *)
Definition IntegrityError : ExcClass := sqlite3_IntegrityError.

(** ** The world: heap, tables, session, output, environment *)

(** Modelled from the spec: the [Group] entity of [model/group.py], which
    is not part of this file; the seeder only resolves a group by its
    [_name] and reads its [id]. *)
Record Group : Type := mkGroup { Group_rowid : Z; Group_name : string }.

(** The integers a column of the store holds are 64-bit signed. *)
Definition in_int64 (z : Z) : bool := (- 2 ^ 63 <=? z) && (z <=? 2 ^ 63 - 1).

Definition wrap64 (z : Z) : Z := (z + 2 ^ 63) mod 2 ^ 64 - 2 ^ 63.
Arguments wrap64 : simpl never.

(** [g.id]: the integer primary key of the group's row, a 64-bit integer
    (the field read in that range). *)
Definition Group_id (g : Group) : Z := wrap64 (Group_rowid g).
Arguments Group_id : simpl never.

(** A row of table [channels] (lines 19-24): [id] integer primary key,
    [_name] not null, [_attributes] JSON and nullable, [_group_id] not
    null with a foreign key to [groups.id]. *)
Record Row : Type := mkRow {
  col_id : Z;
  col_name : string;
  col_attributes : PyVal;
  col_group_id : Z }.

(** A [Channel] instance on the Python heap.  [id_] is [None] until the
    store assigns the primary key. *)
Record ChannelObj : Type := mkChannel {
  id_ : PyVal;
  _name : PyVal;
  _attributes : PyVal;
  _group_id : PyVal }.

(** References to Python objects are heap addresses. *)
Abbreviation ref := nat.

(** What the database has been asked to do, in order. *)
Inductive DbEvent : Type :=
| EvCommit (inserted : list Row)
| EvRollback.

(** [heap]: the Channel objects; [groups], [channels]: the committed
    tables; [session_new]: the objects added to [db.session] and not yet
    flushed; [stdout]: the lines printed; [env]: what the environment does
    to the coming session calls, one entry per call of [add] or [commit]
    ([Some e]: the call raises [e]; [None], or no entry left: it runs);
    [fk_enforced]: whether the database enforces foreign keys (SQLite
    does only under [PRAGMA foreign_keys=ON]); [db_log]: the transactions
    ended so far. *)
Record World : Type := mkWorld {
  heap : list ChannelObj;
  groups : list Group;
  channels : list Row;
  session_new : list ref;
  stdout : list string;
  env : list (option Exc);
  fk_enforced : bool;
  db_log : list DbEvent }.

Definition set_heap (h : list ChannelObj) (w : World) : World :=
  mkWorld h (groups w) (channels w) (session_new w) (stdout w) (env w) (fk_enforced w) (db_log w).
Definition set_channels (t : list Row) (w : World) : World :=
  mkWorld (heap w) (groups w) t (session_new w) (stdout w) (env w) (fk_enforced w) (db_log w).
Definition set_session_new (p : list ref) (w : World) : World :=
  mkWorld (heap w) (groups w) (channels w) p (stdout w) (env w) (fk_enforced w) (db_log w).
Definition set_stdout (o : list string) (w : World) : World :=
  mkWorld (heap w) (groups w) (channels w) (session_new w) o (env w) (fk_enforced w) (db_log w).
Definition set_env (f : list (option Exc)) (w : World) : World :=
  mkWorld (heap w) (groups w) (channels w) (session_new w) (stdout w) f (fk_enforced w) (db_log w).
Definition set_db_log (l : list DbEvent) (w : World) : World :=
  mkWorld (heap w) (groups w) (channels w) (session_new w) (stdout w) (env w) (fk_enforced w) l.

(** ** Computations that may raise *)

Inductive Result (A : Type) : Type :=
| Ok (a : A)
| Raise (e : Exc).
Arguments Ok {A} a.
Arguments Raise {A} e.

(** A Python computation: it runs in a world, changes it, and returns a
    value or raises.  What was done before the raise stays done. *)
Definition M (A : Type) : Type := World -> Result A * World.

Definition ret {A : Type} (a : A) : M A := fun w => (Ok a, w).

Definition raise {A : Type} (e : Exc) : M A := fun w => (Raise e, w).

Definition bind {A B : Type} (m : M A) (k : A -> M B) : M B :=
  fun w =>
    match m w with
    | (Ok a, w') => k a w'
    | (Raise e, w') => (Raise e, w')
    end.

Declare Scope py_scope.
Delimit Scope py_scope with py.
Notation "x <- m ;; k" := (bind m (fun x => k))
  (at level 100, m at next level, k at level 200, right associativity) : py_scope.
Notation "m ;; k" := (bind m (fun _ => k))
  (at level 100, k at level 200, right associativity) : py_scope.
Open Scope py_scope.

(** [try: body / except C as e: handler]: the handler runs, in the world
    the body left, on an exception that is an instance of [C]; any other
    exception goes on to the caller. *)
Definition try_except {A : Type} (body : M A) (C : ExcClass) (handler : Exc -> M A) : M A :=
  fun w =>
    match body w with
    | (Ok a, w') => (Ok a, w')
    | (Raise e, w') => if isinstance e C then handler e w' else (Raise e, w')
    end.

(** [for x in xs: body]. *)
Fixpoint for_each {A : Type} (xs : list A) (body : A -> M unit) : M unit :=
  match xs with
  | [] => ret tt
  | x :: rest => body x ;; for_each rest body
  end.

(** [print(line)]. *)
Definition print (line : string) : M unit :=
  fun w => (Ok tt, set_stdout (stdout w ++ [line]) w).

(** Reading an object through its reference.  Python has no dangling
    reference; for a reference that is not in the heap the model raises
    [ReferenceError]. *)
Definition deref (r : ref) : M ChannelObj :=
  fun w =>
    match heap w !! r with
    | Some o => (Ok o, w)
    | None => (Raise (mkExc ReferenceError "no such object"), w)
    end.

(** ** The database session *)

(** The environment's turn at the start of a session call: the next
    entry of [env] is used up, and the call raises when it holds an
    exception. *)
Definition fault : M unit :=
  fun w =>
    match head (env w) with
    | Some (Some e) => (Raise e, set_env (tail (env w)) w)
    | _ => (Ok tt, set_env (tail (env w)) w)
    end.

(** No fault is due in the next [n] session calls. *)
Definition calm (n : nat) (w : World) : bool :=
  forallb (fun f : option Exc => match f with None => true | Some _ => false end)
          (take n (env w)).

(** The integer primary key of a new row: one more than the largest in
    the table, 1 for the empty table (SQLite's rowid). *)
Definition max_rowid (t : list Row) : option Z :=
  fold_right (fun r acc => match acc with
                           | None => Some (col_id r)
                           | Some m => Some (Z.max (col_id r) m)
                           end) None t.

Definition next_rowid (t : list Row) : Z :=
  match max_rowid t with
  | None => 1
  | Some m => m + 1
  end.

Definition group_exists (gs : list Group) (g : Z) : bool :=
  existsb (fun gr => Group_id gr =? g) gs.

(** What the driver does with a value given as a parameter of the
    INSERT, before the database sees the statement: a list or dictionary
    cannot be bound ([sqlalchemy.exc.ProgrammingError] wrapping the
    driver's error; [InterfaceError] before Python 3.11), an integer outside
    64 bits raises [OverflowError]. *)
Definition bind_error (v : PyVal) : option Exc :=
  match v with
  | PList _ | PDict _ =>
      Some (mkExc sa_ProgrammingError "Error binding parameter: type is not supported")
  | PInt z =>
      if in_int64 z then None
      else Some (mkExc OverflowError "Python int too large to convert to SQLite INTEGER")
  | _ => None
  end.


(** The INSERT of one object.  The parameters are bound first, name then
    group.  The database then checks the constraints the columns declare:
    [nullable=False] on [_name] and [_group_id], the foreign key on
    [_group_id] where the database enforces it; a refused INSERT raises
    [sqlalchemy.exc.IntegrityError].  Limit of the model: its columns
    are typed, a string for the name and an integer for the group.  A
    database that types its columns loosely (SQLite) converts an integer
    or a boolean given as name, or a numeric text given as group, and
    commits; rows with such values are outside the model, which ends the
    INSERT with a [StatementError] there.  The results below that speak
    of the row written are stated for string names and integer groups. *)
Definition insert_row (fk : bool) (gs : list Group) (rowid : Z) (o : ChannelObj) : Exc + Row :=
  match bind_error (_name o), bind_error (_group_id o) with
  | Some e, _ => inl e
  | None, Some e => inl e
  | None, None =>
      match _name o, _group_id o with
      | PNone, _ => inl (mkExc sa_IntegrityError "NOT NULL constraint failed: channels._name")
      | _, PNone =>
          inl (mkExc sa_IntegrityError "NOT NULL constraint failed: channels._group_id")
      | PStr s, PInt g =>
          if fk && negb (group_exists gs g)
          then inl (mkExc sa_IntegrityError "FOREIGN KEY constraint failed")
          else inr (mkRow rowid s (_attributes o) g)
      | _, _ => inl (mkExc StatementError "value outside the typed columns of the model")
      end
  end.

Definition with_id (i : Z) (o : ChannelObj) : ChannelObj :=
  mkChannel (PInt i) (_name o) (_attributes o) (_group_id o).

(** The flush of the pending objects, in the order they were added:
    each one that has no primary key yet is inserted and receives its
    [id]; [t] is the table so far, [done] the rows this flush has
    inserted.  The first refused INSERT ends the flush.  Limits of the
    model: an object that has an id is taken to be persisted already, as
    every object is whose id the store assigned (an id set by the caller
    before the first [create] is outside the model); and the values of a
    persisted object are the values given, which is what the store hands
    back for string names and integer groups. *)
Fixpoint flush (fk : bool) (gs : list Group) (t : list Row) (pending : list ref)
    (h : list ChannelObj) (done : list Row) : Exc + (list ChannelObj * list Row) :=
  match pending with
  | [] => inr (h, done)
  | r :: rest =>
      match h !! r with
      | None => inl (mkExc ReferenceError "no such object")
      | Some o =>
          if is_none (id_ o) then
            match insert_row fk gs (next_rowid (t ++ done)) o with
            | inl e => inl e
            | inr row => flush fk gs t rest (<[r := with_id (col_id row) o]> h) (done ++ [row])
            end
          else flush fk gs t rest h done
      end
  end.

(** Modelled from the spec: [db.session.add(obj)], [db] being the
    Flask-SQLAlchemy handle that [__init__.py] creates and this file
    imports (line 4).  The object becomes pending, unless it already is or
    already has its primary key (a persistent object). *)
Definition db_session_add (r : ref) : M unit :=
  fault ;;
  o <- deref r ;;
  fun w =>
    if is_none (id_ o) && negb (existsb (Nat.eqb r) (session_new w))
    then (Ok tt, set_session_new (session_new w ++ [r]) w)
    else (Ok tt, w).

(** Modelled from the spec: [db.session.commit()].  It flushes the
    pending objects and makes the transaction durable, all of it or, when
    an INSERT is refused, none of it (the exception goes to the caller,
    the pending objects stay pending until [rollback]). *)
Definition db_session_commit : M unit :=
  fault ;;
  fun w =>
    match flush (fk_enforced w) (groups w) (channels w) (session_new w) (heap w) [] with
    | inl e => (Raise e, w)
    | inr (h, rows) =>
        (Ok tt, set_db_log (db_log w ++ [EvCommit rows])
                  (set_session_new [] (set_channels (channels w ++ rows) (set_heap h w))))
    end.

(** Modelled from the spec: [db.session.rollback()].  The pending
    objects leave the session; nothing durable changes. *)
Definition db_session_rollback : M unit :=
  fun w => (Ok tt, set_db_log (db_log w ++ [EvRollback]) (set_session_new [] w)).

(** Modelled from the spec: [db.create_all()] (line 107), which creates
    the tables that do not exist yet.  The tables of the model always
    exist, an absent one being an empty one. *)
Definition db_create_all : M unit := ret tt.

(** Modelled from the spec: [Group.query.filter_by(_name=n).first()],
    the first group of that name in the table, or [None]. *)
Definition Group_first (n : string) (gs : list Group) : option Group :=
  find (fun g => String.eqb (Group_name g) n) gs.
Arguments Group_first : simpl never.

Definition Group_query_first (n : string) : M (option Group) :=
  fun w => (Ok (Group_first n (groups w)), w).

(** [g.id] for the result of a query: [AttributeError] on [None]. *)
Definition Group_dot_id (g : option Group) : M PyVal :=
  match g with
  | Some gr => ret (PInt (Group_id gr))
  | None => raise (mkExc AttributeError "'NoneType' object has no attribute 'id'")
  end.

(** ** The Channel class (lines 7-90) *)

(** [__init__(self, name, group_id, attributes=None)] (lines 28-39) on a
    fresh instance; an omitted [attributes] is the default [None]. *)
Definition Channel_init (name group_id : PyVal) (attributes : option PyVal) : ChannelObj :=
  let attributes := default PNone attributes in
  mkChannel PNone name (py_or attributes (PDict [])) group_id.

(** The call [Channel(name, group_id, attributes)]: a new object on the
    heap, initialised by [__init__]. *)
Definition Channel (name group_id : PyVal) (attributes : option PyVal) : M ref :=
  fun w =>
    (Ok (length (heap w)), set_heap (heap w ++ [Channel_init name group_id attributes]) w).

(** [__repr__] (lines 41-49). *)
Definition Channel_repr (self : ref) : M string :=
  o <- deref self ;;
  ret ("Channel(id=" +:+ py_str (id_ o) +:+ ", name=" +:+ py_str (_name o)
       +:+ ", group_id=" +:+ py_str (_group_id o)
       +:+ ", attributes=" +:+ py_str (_attributes o) +:+ ")").

(** The [name] property (lines 51-59). *)
Definition Channel_name (self : ref) : M PyVal :=
  o <- deref self ;;
  ret (_name o).

(** [create] (lines 61-76). *)
Definition create (self : ref) : M unit :=
  try_except
    (db_session_add self ;;
     db_session_commit)
    Exception_
    (fun e =>
       db_session_rollback ;;
       raise e).

(** [read] (lines 78-90). *)
Definition read (self : ref) : M PyVal :=
  o <- deref self ;;
  ret (PDict [("id", id_ o);
              ("name", _name o);
              ("attributes", _attributes o);
              ("group_id", _group_id o)]).

(** ** The seeder (lines 92-150) *)

(** [Channel(name=n, group_id=g.id)]: [g.id] is evaluated first. *)
Definition Channel_of (n : string) (g : option Group) : M ref :=
  gid <- Group_dot_id g ;;
  Channel (PStr n) gid None.

(** Lines 110-142: the group lookups and the two lists of channels. *)
Definition seed_channels : M (list ref) :=
  general <- Group_query_first "General" ;;
  support <- Group_query_first "Support" ;;
  c1 <- Channel_of "Announcements" general ;;
  c2 <- Channel_of "Events" general ;;
  c3 <- Channel_of "FAQ" support ;;
  c4 <- Channel_of "Help Desk" support ;;
  let home_page_channels := [c1; c2; c3; c4] in
  limitless_connection <- Group_query_first "Limitless Connections" ;;
  dnhs_football <- Group_query_first "DNHS Football" ;;
  school_subjects <- Group_query_first "School Subjects" ;;
  music <- Group_query_first "Music" ;;
  satire <- Group_query_first "Satire" ;;
  activity_hub <- Group_query_first "Activity Hub" ;;
  s1 <- Channel_of "Penpal Letters" limitless_connection ;;
  s2 <- Channel_of "Game vs Poway" dnhs_football ;;
  s3 <- Channel_of "Game vs Westview" dnhs_football ;;
  s4 <- Channel_of "Math" school_subjects ;;
  s5 <- Channel_of "English" school_subjects ;;
  s6 <- Channel_of "Artist" music ;;
  s7 <- Channel_of "Music Genre" music ;;
  s8 <- Channel_of "Humor" satire ;;
  s9 <- Channel_of "Memes" satire ;;
  s10 <- Channel_of "Irony" satire ;;
  s11 <- Channel_of "Cyber Patriots" activity_hub ;;
  s12 <- Channel_of "Robotics" activity_hub ;;
  let shared_interest_channels := [s1; s2; s3; s4; s5; s6; s7; s8; s9; s10; s11; s12] in
  ret (home_page_channels ++ shared_interest_channels).

(** Lines 145-147, the body of the [try]. *)
Definition insert_channel (channel : ref) : M unit :=
  db_session_add channel ;;
  db_session_commit ;;
  r <- Channel_repr channel ;;
  print ("Record created: " +:+ r).

(** Lines 149-150, the handler. *)
Definition skip_channel (channel : ref) : M unit :=
  db_session_rollback ;;
  n <- Channel_name channel ;;
  print ("Records exist, duplicate email, or error: " +:+ py_str n).

(** Lines 144-150, one turn of the loop. *)
Definition seed_one (channel : ref) : M unit :=
  try_except (insert_channel channel) IntegrityError (fun _ => skip_channel channel).

(** [initChannels] (lines 92-150).  The [with app.app_context():] of
    line 105 only makes [db] usable; the world is that context. *)
Definition initChannels : M unit :=
  db_create_all ;;
  channels <- seed_channels ;;
  for_each channels seed_one.

(** [d[k]] on a dictionary value. *)
Definition dict_get (k : string) (d : PyVal) : option PyVal :=
  match d with
  | PDict items => snd <$> find (fun kv => String.eqb (fst kv) k) items
  | _ => None
  end.

(** A world with nothing in it. *)
Definition empty_world : World := mkWorld [] [] [] [] [] [] true [].

(** ** Definitions used by the statements *)

(** The pending list after [db.session.add(r)]. *)
Definition pending_after_add (r : ref) (w : World) : list ref :=
  match heap w !! r with
  | Some o =>
      if is_none (id_ o) && negb (existsb (Nat.eqb r) (session_new w))
      then session_new w ++ [r] else session_new w
  | None => session_new w
  end.

(** The group reference [g] is one the store takes: a 64-bit integer
    that passes the foreign-key check. *)
Definition valid_group (w : World) (g : Z) : bool :=
  in_int64 g && (negb (fk_enforced w) || group_exists (groups w) g).

(** A database with one group and no channel. *)
Definition one_group_world : World :=
  mkWorld [] [mkGroup 5 "General"] [] [] [] [] true [].

(** The groups the seeder looks up, in the order of the lookups. *)
Definition seed_groups : list string :=
  ["General"; "Support"; "Limitless Connections"; "DNHS Football";
   "School Subjects"; "Music"; "Satire"; "Activity Hub"].

(** The exception of [None.id]. *)
Definition NoneType_has_no_id : Exc :=
  mkExc AttributeError "'NoneType' object has no attribute 'id'".

(** A database without the group 'General'. *)
Definition no_general_world : World :=
  mkWorld [] [mkGroup 2 "Support"; mkGroup 6 "Music"] [] [] [] [] true [].

(** The line printed for a row that was created. *)
Definition created_line (row : Row) : string :=
  "Record created: Channel(id=" +:+ str_of_Z (col_id row)
  +:+ ", name=" +:+ col_name row
  +:+ ", group_id=" +:+ str_of_Z (col_group_id row)
  +:+ ", attributes=" +:+ py_str (col_attributes row) +:+ ")".

(** The line printed for a channel that was skipped. *)
Definition skipped_line (name : PyVal) : string :=
  "Records exist, duplicate email, or error: " +:+ py_str name.

(** The rows of a list of (channel name, group id) pairs, numbered from
    [start]. *)
Fixpoint number_rows (start : Z) (plan : list (string * Z)) : list Row :=
  match plan with
  | [] => []
  | (c, g) :: rest => mkRow start c (PDict []) g :: number_rows (start + 1) rest
  end.

(** The (channel name, group name) pairs of lines 113-118 and 127-140. *)
Definition home_page_plan : list (string * string) :=
  [("Announcements", "General"); ("Events", "General");
   ("FAQ", "Support"); ("Help Desk", "Support")].

Definition shared_interest_plan : list (string * string) :=
  [("Penpal Letters", "Limitless Connections");
   ("Game vs Poway", "DNHS Football"); ("Game vs Westview", "DNHS Football");
   ("Math", "School Subjects"); ("English", "School Subjects");
   ("Artist", "Music"); ("Music Genre", "Music");
   ("Humor", "Satire"); ("Memes", "Satire"); ("Irony", "Satire");
   ("Cyber Patriots", "Activity Hub"); ("Robotics", "Activity Hub")].

Definition seed_plan : list (string * string) := home_page_plan ++ shared_interest_plan.

(** The id of the group a name resolves to. *)
Definition group_id_of (gs : list Group) (n : string) : Z :=
  match Group_first n gs with
  | Some g => Group_id g
  | None => 0
  end.

(** Every group the seeder looks up has a row. *)
Definition all_groups_present (w : World) : bool :=
  forallb (fun n => match Group_first n (groups w) with Some _ => true | None => false end)
          seed_groups.

(** The plan with each group name resolved to the group's id. *)
Definition resolved_plan (w : World) : list (string * Z) :=
  map (fun cn : string * string => (fst cn, group_id_of (groups w) (snd cn))) seed_plan.

(** The object the constructor builds for a pair of the plan. *)
Definition planned_channel (cg : string * Z) : ChannelObj :=
  mkChannel PNone (PStr (fst cg)) (PDict []) (PInt (snd cg)).

(** The eight groups of the seeder. *)
Definition eight_groups : list Group :=
  [mkGroup 1 "General"; mkGroup 2 "Support"; mkGroup 3 "Limitless Connections";
   mkGroup 4 "DNHS Football"; mkGroup 5 "School Subjects"; mkGroup 6 "Music";
   mkGroup 7 "Satire"; mkGroup 8 "Activity Hub"].

(** A fresh database that holds the eight groups. *)
Definition seeded_groups_world : World := mkWorld [] eight_groups [] [] [] [] true [].

(** An error of the database that is no integrity error. *)
Definition database_is_locked : Exc := mkExc sa_OperationalError "database is locked".

(** The eight groups, and a database that locks up at the second commit. *)
Definition locked_world : World :=
  mkWorld [] eight_groups [] [] [] [None; None; None; Some database_is_locked] true [].

(** A uniqueness conflict raised as the class the handler names. *)
Definition sqlite_unique_conflict : Exc :=
  mkExc sqlite3_IntegrityError "UNIQUE constraint failed: channels._name".

(** The store after a first run of the seeder. *)
Definition seeded_world : World := snd (initChannels seeded_groups_world).

(** The same conflict as the session reports it. *)
Definition store_unique_conflict : Exc :=
  mkExc sa_IntegrityError "UNIQUE constraint failed: channels._name".

(** ** Relations between the world before and after an operation *)

(** [o'] has the name, the attributes and the group of [o]. *)
Definition same_fields (o o' : ChannelObj) : Prop :=
  _name o' = _name o /\ _attributes o' = _attributes o /\ _group_id o' = _group_id o.

(** From [w] to [w']: the table [channels] has only gained rows, at its
    end; the groups and the foreign-key setting are the same; every
    object of [w] is still there with the same name, attributes and
    group, and unchanged altogether when it already had its id. *)
Definition evolves (w w' : World) : Prop :=
  (exists rows, channels w' = channels w ++ rows) /\
  groups w' = groups w /\
  fk_enforced w' = fk_enforced w /\
  (forall r o, heap w !! r = Some o ->
     exists o', heap w' !! r = Some o' /\ same_fields o o' /\
                (is_none (id_ o) = false -> o' = o)).

(** The computation [m] relates every world to the world it leaves,
    whether it returns or raises. *)
Definition keeps {A : Type} (R : World -> World -> Prop) (m : M A) : Prop :=
  forall w, R w (snd (m w)).

(** The rollbacks in a log. *)
Definition count_rollbacks (log : list DbEvent) : nat :=
  length (List.filter (fun ev => match ev with EvRollback => true | EvCommit _ => false end) log).

(** ** Worlds used as examples *)

(** Two channels built and not yet persisted, the first one already
    added to the session. *)
Definition one_pending_world : World :=
  mkWorld [mkChannel PNone (PStr "Math") (PDict []) (PInt 5);
           mkChannel PNone (PStr "English") (PDict []) (PInt 5)]
          [mkGroup 5 "General"] [] [0%nat] [] [] true [].


(** The eight groups in a fresh database, where the commit of the third
    channel (number 2 from 0) of the seeder fails with [e]. *)
Definition third_commit_fails (e : Exc) : World :=
  mkWorld [] eight_groups [] [] [] (replicate 4 None ++ [None; Some e]) true [].

(** The name of [o] is a string or [None] and its group an integer or
    [None]: the values the columns are declared for. *)
Definition typed_fields (o : ChannelObj) : bool :=
  match _name o, _group_id o with
  | (PNone | PStr _), (PNone | PInt _) => true
  | _, _ => false
  end.

(** All the bytes of the strings of a value are ASCII. *)
Definition ascii_string (s : string) : bool :=
  forallb (fun c => Nat.ltb (nat_of_ascii c) 128) (list_ascii_of_string s).

Fixpoint ascii_value (v : PyVal) : bool :=
  match v with
  | PStr s => ascii_string s
  | PList items => forallb ascii_value items
  | PDict items =>
      forallb (fun kv : string * PyVal => let (k, x) := kv in ascii_string k && ascii_value x)
              items
  | _ => true
  end.

(** * Properties *)

(** Closed goals about concrete worlds are settled by evaluation. *)
Ltac conjuncts := repeat match goal with |- _ /\ _ => split end.
Ltac evaluate := vm_compute; reflexivity.

(** ** The constructor and [read] *)

Lemma py_or_truthy (a b : PyVal) : truthy a = true -> py_or a b = a.
Proof. unfold py_or. intros ->. reflexivity. Qed.




Lemma deref_lookup (w : World) (r : ref) (o : ChannelObj) :
  heap w !! r = Some o -> deref r w = (Ok o, w).
Proof. intros H. unfold deref. now rewrite H. Qed.

Lemma read_lookup (w : World) (self : ref) (o : ChannelObj) :
  heap w !! self = Some o ->
  read self w =
    (Ok (PDict [("id", id_ o); ("name", _name o);
                ("attributes", _attributes o); ("group_id", _group_id o)]), w).
Proof. intros H. unfold read, bind. now rewrite (deref_lookup _ _ _ H). Qed.

Lemma heap_alloc_lookup (w : World) (o : ChannelObj) :
  heap (set_heap (heap w ++ [o]) w) !! length (heap w) = Some o.
Proof. cbn [heap set_heap]. now apply list_lookup_middle. Qed.

Lemma Channel_run (name group_id : PyVal) (attributes : option PyVal) (w : World) :
  Channel name group_id attributes w =
    (Ok (length (heap w)), set_heap (heap w ++ [Channel_init name group_id attributes]) w).
Proof. reflexivity. Qed.

(** C6. A Channel built without the [attributes] argument is a heap object
    whose [_attributes] field is the empty dictionary [{}], not [None]. *)
Theorem attributes_omitted_is_empty_mapping (name group_id : PyVal) (w : World) :
  exists self w' o,
    Channel name group_id None w = (Ok self, w') /\
    heap w' !! self = Some o /\
    _attributes o = PDict [] /\
    _attributes o <> PNone.
Proof.
  eexists _, _, _. split; [apply Channel_run|].
  split; [apply heap_alloc_lookup|].
  split; [reflexivity | discriminate].
Qed.



(** C9. [read()] on a Channel returns the dictionary with exactly the
    keys [id], [name], [attributes] and [group_id], holding the object's
    current fields, and leaves the whole world (the object, the heap, the
    tables, the session) as it was. *)
Theorem read_is_a_pure_snapshot (w : World) (self : ref) (o : ChannelObj) :
  heap w !! self = Some o ->
  read self w =
    (Ok (PDict [("id", id_ o); ("name", _name o);
                ("attributes", _attributes o); ("group_id", _group_id o)]), w).
Proof.
  intros Hself. unfold read, bind, deref, ret.
  rewrite Hself. reflexivity.
Qed.

Lemma read_is_a_pure_snapshot_witness :
  let o := mkChannel (PInt 7) (PStr "Math") (PDict [("topic", PStr "algebra")]) (PInt 5) in
  let w := set_heap [o] empty_world in
  heap w !! 0%nat = Some o /\
  read 0%nat w =
    (Ok (PDict [("id", PInt 7); ("name", PStr "Math");
                ("attributes", PDict [("topic", PStr "algebra")]); ("group_id", PInt 5)]), w).
Proof.
  split; [reflexivity|].
  apply (read_is_a_pure_snapshot _ 0%nat (mkChannel (PInt 7) (PStr "Math")
           (PDict [("topic", PStr "algebra")]) (PInt 5))).
  reflexivity.
Defined.

(** ** The session *)

Lemma isinstance_Exception (e : Exc) : isinstance e Exception_ = true.
Proof. destruct e as [c msg]. destruct c; reflexivity. Qed.

Lemma try_except_Exception {A : Type} (body : M A) (handler : Exc -> M A) (w : World) :
  try_except body Exception_ handler w =
    match body w with
    | (Ok a, w') => (Ok a, w')
    | (Raise e, w') => handler e w'
    end.
Proof.
  unfold try_except. destruct (body w) as [[a|e] w']; [reflexivity|].
  now rewrite isinstance_Exception.
Qed.

Lemma fault_calm (n : nat) (w : World) :
  calm (S n) w = true ->
  fault w = (Ok tt, set_env (tail (env w)) w) /\ calm n (set_env (tail (env w)) w) = true.
Proof.
  unfold calm, fault. destruct w as [h gs t p out fs fk lg]. cbn [env set_env].
  destruct fs as [|[e|] fs]; cbn; intros H; try discriminate; split; try reflexivity.
  - now destruct n.
  - exact H.
Qed.

Lemma existsb_ref_In (r : ref) (l : list ref) : existsb (Nat.eqb r) l = true <-> In r l.
Proof.
  rewrite existsb_exists. split.
  - intros (x & Hx & Heq). apply Nat.eqb_eq in Heq. now subst.
  - intros H. exists r. split; [exact H | apply Nat.eqb_refl].
Qed.

Lemma wrap64_in_int64 (z : Z) : in_int64 (wrap64 z) = true.
Proof.
  unfold in_int64, wrap64.
  pose proof (Z.mod_pos_bound (z + 2 ^ 63) (2 ^ 64) ltac:(lia)) as H.
  apply andb_true_intro. split; apply Z.leb_le; lia.
Qed.

(** The INSERT of a string name and an integer group the store takes. *)
Lemma insert_row_valid (w : World) (i g : Z) (s : string) (idv a : PyVal) :
  valid_group w g = true ->
  insert_row (fk_enforced w) (groups w) i (mkChannel idv (PStr s) a (PInt g))
    = inr (mkRow i s a g).
Proof.
  unfold valid_group, insert_row, bind_error. cbn [_name _group_id _attributes].
  intros Hv. apply andb_prop in Hv as [-> Hfk].
  destruct (fk_enforced w), (group_exists (groups w) g); reflexivity || discriminate.
Qed.

(** *** The flush *)

Lemma flush_keeps (fk : bool) (gs : list Group) (t : list Row) (pending : list ref) :
  forall (h : list ChannelObj) (done : list Row) (h' : list ChannelObj) (rows : list Row),
    flush fk gs t pending h done = inr (h', rows) ->
    (forall r o, h !! r = Some o -> is_none (id_ o) = false -> h' !! r = Some o) /\
    (exists more, rows = done ++ more).
Proof.
  induction pending as [|r0 rest IH]; intros h done h' rows Hf; cbn [flush] in Hf.
  - inversion Hf; subst. split; [auto | exists []; now rewrite app_nil_r].
  - destruct (h !! r0) as [o0|] eqn:H0; [|discriminate].
    destruct (is_none (id_ o0)) eqn:Hid.
    + destruct (insert_row fk gs (next_rowid (t ++ done)) o0) as [e|row]; [discriminate|].
      destruct (IH _ _ _ _ Hf) as [Hkeep [more ->]]. split.
      * intros r o Hr Ho. apply Hkeep; [|exact Ho].
        destruct (decide (r0 = r)) as [Heq|Hne].
        -- subst r0. assert (o0 = o) by congruence. subst o0. congruence.
        -- now rewrite list_lookup_insert_ne.
      * exists (row :: more). now rewrite <- app_assoc.
    + exact (IH _ _ _ _ Hf).
Qed.

Lemma insert_row_fields (fk : bool) (gs : list Group) (i : Z) (o : ChannelObj) (row : Row) :
  insert_row fk gs i o = inr row ->
  col_id row = i /\ _name o = PStr (col_name row) /\
  _group_id o = PInt (col_group_id row) /\ col_attributes row = _attributes o.
Proof.
  unfold insert_row.
  destruct (bind_error (_name o)); [discriminate|].
  destruct (bind_error (_group_id o)); [discriminate|].
  destruct (_name o), (_group_id o); try discriminate.
  destruct (fk && negb (group_exists gs z)); [discriminate|].
  intros H. inversion H; subst. now cbn.
Qed.

Lemma flush_inserts (fk : bool) (gs : list Group) (t : list Row) (pending : list ref)
    (r : ref) (o : ChannelObj) :
  forall (h : list ChannelObj) (done : list Row) (h' : list ChannelObj) (rows : list Row),
    flush fk gs t pending h done = inr (h', rows) ->
    In r pending -> h !! r = Some o -> is_none (id_ o) = true ->
    exists row, In row rows /\ _name o = PStr (col_name row) /\
                _group_id o = PInt (col_group_id row) /\
                col_attributes row = _attributes o /\
                h' !! r = Some (with_id (col_id row) o).
Proof.
  induction pending as [|r0 rest IH]; intros h done h' rows Hf Hin Hr Ho; [destruct Hin|].
  cbn [flush] in Hf.
  destruct (h !! r0) as [o0|] eqn:H0; [|discriminate].
  destruct (decide (r0 = r)) as [Heq|Hne].
  - subst r0. assert (o0 = o) by congruence. subst o0. rewrite Ho in Hf.
    destruct (insert_row fk gs (next_rowid (t ++ done)) o) as [e|row] eqn:Hrow; [discriminate|].
    destruct (insert_row_fields _ _ _ _ _ Hrow) as (_ & Hn & Hg & Ha).
    destruct (flush_keeps _ _ _ _ _ _ _ _ Hf) as [Hkeep [more ->]].
    exists row. repeat split; try assumption.
    + apply in_or_app. left. apply in_or_app. right. now left.
    + apply Hkeep; [|reflexivity].
      apply list_lookup_insert_eq. now apply lookup_lt_Some in Hr.
  - destruct Hin as [Heq|Hin]; [contradiction|].
    destruct (is_none (id_ o0)).
    + destruct (insert_row fk gs (next_rowid (t ++ done)) o0) as [e|row]; [discriminate|].
      apply (IH _ _ _ _ Hf Hin); [|exact Ho].
      now rewrite list_lookup_insert_ne.
    + exact (IH _ _ _ _ Hf Hin Hr Ho).
Qed.

(** *** [add] then [commit] *)

Lemma pending_after_add_In (r : ref) (w : World) (o : ChannelObj) :
  heap w !! r = Some o -> is_none (id_ o) = true -> In r (pending_after_add r w).
Proof.
  intros Hr Ho. unfold pending_after_add. rewrite Hr, Ho. cbn [andb].
  destruct (existsb (Nat.eqb r) (session_new w)) eqn:Hex; cbn [negb].
  - now apply existsb_ref_In.
  - apply in_or_app. right. now left.
Qed.

(** [add] then [commit] either succeeds, having flushed the pending
    objects in one transaction, or raises, and then neither the heap nor
    the tables have changed. *)
Lemma add_commit_cases (r : ref) (w : World) :
  (exists h rows,
      flush (fk_enforced w) (groups w) (channels w) (pending_after_add r w) (heap w) []
        = inr (h, rows) /\
      (db_session_add r ;; db_session_commit) w =
        (Ok tt, mkWorld h (groups w) (channels w ++ rows) [] (stdout w)
                        (tail (tail (env w))) (fk_enforced w)
                        (db_log w ++ [EvCommit rows])) /\
      is_Some (heap w !! r))
  \/
  (exists e w1,
      (db_session_add r ;; db_session_commit) w = (Raise e, w1) /\
      heap w1 = heap w /\ groups w1 = groups w /\ channels w1 = channels w /\
      stdout w1 = stdout w /\ fk_enforced w1 = fk_enforced w /\ db_log w1 = db_log w).
Proof.
  destruct w as [h gs t p out fs fk lg].
  unfold pending_after_add, db_session_add, db_session_commit, bind, fault, deref.
  cbn.
  destruct (head fs) as [[e|]|] eqn:Hfs; cbn.
  { right. eexists _, _. split; [reflexivity|]. now cbn. }
  all: destruct (h !! r) as [o|] eqn:Hr; cbn;
    [| right; eexists _, _; split; [reflexivity|]; now cbn ].
  all: destruct (is_none (id_ o) && negb (existsb (Nat.eqb r) p)); cbn;
    (destruct (head (tail fs)) as [[e|]|]; cbn;
     [ right; eexists _, _; split; [reflexivity|]; now cbn | | ]);
    match goal with
    | |- context [flush ?a ?b ?c ?d ?e ?f] =>
        destruct (flush a b c d e f) as [e'|[h' rows]]; cbn;
        [ right; eexists _, _; split; [reflexivity|]; now cbn
        | left; eexists _, _; split; [reflexivity|]; split; [reflexivity|]; now exists o ]
    end.
Qed.

(** ** [create] *)

(** C2. [create] has two outcomes, decided by [add] and [commit].
    Either both returned, and then [create] returns in the world they
    left: one commit has made the pending rows durable (the row of [self]
    among them, with its name, group and attributes, when [self] was not
    yet persisted and has a string name and an integer group, and [self]
    has received the id of that row).  Or one of them raised an exception
    [e], and then [create] has rolled the session back, the tables and
    the heap are as they were (no partial write), and [create] raises that
    same [e]: it never returns after an exception. *)
Theorem create_commits_or_rolls_back (self : ref) (w : World) :
  (exists w' rows,
      (db_session_add self ;; db_session_commit) w = (Ok tt, w') /\
      create self w = (Ok tt, w') /\
      channels w' = channels w ++ rows /\
      db_log w' = db_log w ++ [EvCommit rows] /\
      session_new w' = [] /\
      forall o s g, heap w !! self = Some o -> id_ o = PNone ->
        _name o = PStr s -> _group_id o = PInt g ->
        exists row, In row rows /\
                    col_name row = s /\
                    col_group_id row = g /\
                    col_attributes row = _attributes o /\
                    heap w' !! self = Some (with_id (col_id row) o))
  \/
  (exists e w1 w',
      (db_session_add self ;; db_session_commit) w = (Raise e, w1) /\
      create self w = (Raise e, w') /\
      channels w' = channels w /\
      groups w' = groups w /\
      heap w' = heap w /\
      session_new w' = [] /\
      db_log w' = db_log w ++ [EvRollback]).
Proof.
  unfold create. rewrite try_except_Exception.
  destruct (add_commit_cases self w)
    as [(h & rows & Hflush & Hrun & _)|(e & w1 & Hrun & Hh & Hg & Ht & _ & _ & Hl)].
  - left. rewrite Hrun. eexists _, rows. split; [reflexivity|]. split; [reflexivity|]. cbn.
    repeat split.
    intros o s g Hself Hid Hname Hgroup.
    assert (Hnone : is_none (id_ o) = true) by now rewrite Hid.
    destruct (flush_inserts _ _ _ _ self o _ _ _ _ Hflush
                (pending_after_add_In _ _ _ Hself Hnone) Hself Hnone)
      as (row & Hin & Hn & Hgr & Ha & Hheap).
    exists row. rewrite Hname in Hn. rewrite Hgroup in Hgr.
    repeat split; try assumption; congruence.
  - right. rewrite Hrun. exists e, w1. eexists. split; [reflexivity|].
    unfold bind, db_session_rollback, raise. split; [reflexivity|].
    cbn. rewrite Ht, Hg, Hh, Hl. repeat split.
Qed.

(** [add] then [commit] of one object that has no id yet, in a clean
    session with no fault due: the outcome is that of its INSERT. *)
Lemma add_commit_fresh (self : ref) (o : ChannelObj) (w : World) :
  session_new w = [] -> calm 2 w = true ->
  heap w !! self = Some o -> id_ o = PNone ->
  (db_session_add self ;; db_session_commit) w =
    match insert_row (fk_enforced w) (groups w) (next_rowid (channels w)) o with
    | inr row =>
        (Ok tt, mkWorld (<[self := with_id (col_id row) o]> (heap w)) (groups w)
                        (channels w ++ [row]) [] (stdout w) (tail (tail (env w)))
                        (fk_enforced w) (db_log w ++ [EvCommit [row]]))
    | inl e =>
        (Raise e, mkWorld (heap w) (groups w) (channels w) [self] (stdout w)
                          (tail (tail (env w))) (fk_enforced w) (db_log w))
    end.
Proof.
  destruct w as [h gs t p out fs fk lg]. cbn. intros -> Hcalm Hself Hid.
  unfold db_session_add, db_session_commit, bind, fault, deref, calm in *. cbn in *.
  assert (Hfs : exists a b, (head fs = None \/ head fs = Some None) /\
                             (head (tail fs) = None \/ head (tail fs) = Some None) /\
                             a = tail fs /\ b = tail (tail fs)).
  { destruct fs as [|[e|] [|[e'|] fs]]; cbn in Hcalm; try discriminate;
      eexists _, _; cbn; repeat split; try reflexivity; (now left) || now right. }
  destruct Hfs as (a & b & H1 & H2 & -> & ->).
  destruct H1 as [-> | ->]; cbn; rewrite Hself; cbn; rewrite Hid; cbn;
    destruct H2 as [-> | ->]; cbn; rewrite Hself; cbn; rewrite Hid; cbn;
    rewrite app_nil_r;
    destruct (insert_row fk gs (next_rowid t) o); reflexivity.
Qed.

Lemma create_fresh (self : ref) (o : ChannelObj) (w : World) :
  session_new w = [] -> calm 2 w = true ->
  heap w !! self = Some o -> id_ o = PNone ->
  create self w =
    match insert_row (fk_enforced w) (groups w) (next_rowid (channels w)) o with
    | inr row =>
        (Ok tt, mkWorld (<[self := with_id (col_id row) o]> (heap w)) (groups w)
                        (channels w ++ [row]) [] (stdout w) (tail (tail (env w)))
                        (fk_enforced w) (db_log w ++ [EvCommit [row]]))
    | inl e =>
        (Raise e, mkWorld (heap w) (groups w) (channels w) [] (stdout w)
                          (tail (tail (env w))) (fk_enforced w) (db_log w ++ [EvRollback]))
    end.
Proof.
  intros Hs Hc Hself Hid. unfold create. rewrite try_except_Exception.
  rewrite (add_commit_fresh self o w Hs Hc Hself Hid).
  destruct (insert_row _ _ _ o); reflexivity.
Qed.

(** ** Construct, persist, read *)

Lemma py_or_supplied_mapping (attributes : option (list (string * PyVal))) :
  py_or (default PNone (PDict <$> attributes)) (PDict []) = PDict (default [] attributes).
Proof. destruct attributes as [[|kv items]|]; reflexivity. Qed.

Lemma calm_set_heap (n : nat) (h : list ChannelObj) (w : World) :
  calm n (set_heap h w) = calm n w.
Proof. reflexivity. Qed.

(** What [create] does to a Channel straight from the constructor. *)
Lemma create_constructed (w : World) (name group_id : PyVal) (attributes : option PyVal) :
  session_new w = [] -> calm 2 w = true ->
  let o := Channel_init name group_id attributes in
  let self := length (heap w) in
  let w1 := set_heap (heap w ++ [o]) w in
  Channel name group_id attributes w = (Ok self, w1) /\
  create self w1 =
    match insert_row (fk_enforced w) (groups w) (next_rowid (channels w)) o with
    | inr row =>
        (Ok tt, mkWorld (<[self := with_id (col_id row) o]> (heap w ++ [o])) (groups w)
                        (channels w ++ [row]) [] (stdout w) (tail (tail (env w)))
                        (fk_enforced w) (db_log w ++ [EvCommit [row]]))
    | inl e =>
        (Raise e, mkWorld (heap w ++ [o]) (groups w) (channels w) [] (stdout w)
                          (tail (tail (env w))) (fk_enforced w) (db_log w ++ [EvRollback]))
    end.
Proof.
  intros Hs Hc o self w1. split; [reflexivity|].
  apply (create_fresh self o w1); try assumption; try reflexivity.
  apply heap_alloc_lookup.
Qed.

(** C5. For a name that is a string and a group id the store accepts
    (a 64-bit integer; the group exists, or foreign keys are not
    enforced), with any mapping
    supplied as [attributes] or none, in a clean session with no fault due:
    constructing the Channel and persisting it succeeds, [read()] then
    returns that name, that group id, the supplied mapping ([{}] when none
    was supplied) and the id the store assigned, and the row written holds
    the same. *)
Theorem construct_persist_read (w : World) (name : string) (group_id : Z)
    (attributes : option (list (string * PyVal))) :
  session_new w = [] -> calm 2 w = true -> valid_group w group_id = true ->
  exists self w1 w2,
    Channel (PStr name) (PInt group_id) (PDict <$> attributes) w = (Ok self, w1) /\
    create self w1 = (Ok tt, w2) /\
    read self w2 =
      (Ok (PDict [("id", PInt (next_rowid (channels w)));
                  ("name", PStr name);
                  ("attributes", PDict (default [] attributes));
                  ("group_id", PInt group_id)]), w2) /\
    channels w2 =
      channels w ++ [mkRow (next_rowid (channels w)) name (PDict (default [] attributes)) group_id].
Proof.
  intros Hs Hc Hv.
  destruct (create_constructed w (PStr name) (PInt group_id) (PDict <$> attributes) Hs Hc)
    as [Hnew Hcreate].
  assert (Ho : Channel_init (PStr name) (PInt group_id) (PDict <$> attributes)
               = mkChannel PNone (PStr name) (PDict (default [] attributes)) (PInt group_id)).
  { unfold Channel_init. now rewrite py_or_supplied_mapping. }
  rewrite Ho in Hnew, Hcreate.
  rewrite (insert_row_valid w _ _ _ _ _ Hv) in Hcreate. cbn [col_id] in Hcreate.
  eexists _, _, _. split; [exact Hnew|]. split; [exact Hcreate|]. split; [|reflexivity].
  apply (read_lookup _ _ (with_id (next_rowid (channels w))
           (mkChannel PNone (PStr name) (PDict (default [] attributes)) (PInt group_id)))).
  cbn [heap]. apply list_lookup_insert_eq. rewrite length_app. cbn. lia.
Qed.

Lemma construct_persist_read_witness :
  session_new one_group_world = [] /\
  calm 2 one_group_world = true /\
  valid_group one_group_world 5 = true /\
  exists self w1 w2,
    Channel (PStr "Announcements") (PInt 5) None one_group_world = (Ok self, w1) /\
    create self w1 = (Ok tt, w2) /\
    read self w2 =
      (Ok (PDict [("id", PInt 1); ("name", PStr "Announcements");
                  ("attributes", PDict []); ("group_id", PInt 5)]), w2) /\
    channels w2 = [mkRow 1 "Announcements" (PDict []) 5].
Proof.
  split; [reflexivity|]. split; [reflexivity|]. split; [reflexivity|].
  exact (construct_persist_read one_group_world "Announcements" 5 None
           eq_refl eq_refl eq_refl).
Defined.

(** ** Validation at persist time *)





(** ** The seeder *)

Ltac step_lookups H :=
  repeat first
    [ rewrite H; cbn; try (eexists; reflexivity)
    | match goal with
      | |- context [Group_first ?n ?gs] =>
          destruct (Group_first n gs) eqn:?; cbn; try (eexists; reflexivity)
      end ].

(** With a seed group missing, building the channel lists raises
    [AttributeError], and has only allocated objects by then. *)
Lemma seed_channels_missing_group (w : World) (n : string) :
  In n seed_groups -> Group_first n (groups w) = None ->
  exists h, seed_channels w = (Raise NoneType_has_no_id, set_heap h w).
Proof.
  destruct w as [h gs t p out fs fk lg]. cbn [groups]. intros Hin Hnone.
  unfold seed_channels, Channel_of, Group_query_first, Group_dot_id, Channel, bind, ret,
    raise, set_heap, NoneType_has_no_id.
  cbn.
  cbn in Hin.
  destruct Hin as [<-|[<-|[<-|[<-|[<-|[<-|[<-|[<-|[]]]]]]]]]; step_lookups Hnone.
Qed.

(** C4. When one of the groups the seeder looks up has no row, the lookup
    returns [None], and [initChannels] raises the [AttributeError] of
    [None.id] while it builds the channel lists: nothing guards the lookup.
    No channel is added, committed or reported. *)
Theorem missing_group_raises_reference_error (w : World) (n : string) :
  In n seed_groups -> Group_first n (groups w) = None ->
  Group_query_first n w = (Ok None, w) /\
  exists w',
    seed_channels w = (Raise NoneType_has_no_id, w') /\
    initChannels w = (Raise NoneType_has_no_id, w') /\
    channels w' = channels w /\ session_new w' = session_new w /\
    stdout w' = stdout w /\ db_log w' = db_log w.
Proof.
  intros Hin Hnone. split.
  - unfold Group_query_first. now rewrite Hnone.
  - destruct (seed_channels_missing_group w n Hin Hnone) as [h Hseed].
    exists (set_heap h w). split; [exact Hseed|].
    unfold initChannels, db_create_all, bind, ret. rewrite Hseed.
    repeat split.
Qed.

Lemma missing_group_raises_reference_error_witness :
  In "General" seed_groups /\
  Group_first "General" (groups no_general_world) = None /\
  Group_query_first "General" no_general_world = (Ok None, no_general_world) /\
  exists w',
    seed_channels no_general_world = (Raise NoneType_has_no_id, w') /\
    initChannels no_general_world = (Raise NoneType_has_no_id, w') /\
    channels w' = channels no_general_world /\
    session_new w' = session_new no_general_world /\
    stdout w' = stdout no_general_world /\ db_log w' = db_log no_general_world.
Proof.
  split; [now left|]. split; [reflexivity|].
  apply (missing_group_raises_reference_error no_general_world "General");
    [now left | reflexivity].
Defined.

(** *** Row ids *)

Lemma max_rowid_snoc (t : list Row) (r : Row) :
  max_rowid (t ++ [r]) =
    Some (match max_rowid t with
          | None => col_id r
          | Some m => Z.max m (col_id r)
          end).
Proof.
  induction t as [|r0 t IH]; [reflexivity|].
  cbn [app max_rowid fold_right] in *. fold (max_rowid (t ++ [r])). fold (max_rowid t).
  rewrite IH. destruct (max_rowid t) as [m|]; f_equal; lia.
Qed.

Lemma next_rowid_snoc (t : list Row) (r : Row) :
  col_id r = next_rowid t -> next_rowid (t ++ [r]) = next_rowid t + 1.
Proof.
  unfold next_rowid. rewrite max_rowid_snoc.
  destruct (max_rowid t) as [m|]; intros ->; lia.
Qed.

(** *** One turn of the loop *)

Lemma calm_two_later (n : nat) (w : World) (fs : list (option Exc)) :
  calm (S (S n)) w = true -> fs = tail (tail (env w)) ->
  calm 2 w = true /\ forall w', env w' = fs -> calm n w' = true.
Proof.
  unfold calm. intros H ->.
  destruct (env w) as [|[e|] [|[e'|] fs]]; cbn in *; try discriminate.
  - split; [reflexivity|]. intros w' ->. now destruct n.
  - split; [reflexivity|]. intros w' ->. now destruct n.
  - split; [reflexivity|]. intros w' ->. exact H.
Qed.

Lemma insert_channel_unfold (channel : ref) (w : World) :
  insert_channel channel w =
    match (db_session_add channel ;; db_session_commit) w with
    | (Ok _, w1) => (r <- Channel_repr channel ;; print ("Record created: " +:+ r)) w1
    | (Raise e, w1) => (Raise e, w1)
    end.
Proof.
  unfold insert_channel, bind.
  destruct (db_session_add channel w) as [[[]|e] w1]; [|reflexivity].
  destruct (db_session_commit w1) as [[[]|e] w2]; reflexivity.
Qed.

(** A turn of the loop on a channel of the seeder, its group accepted by
    the store, in a clean session with no fault due: the row is
    committed, alone, and reported. *)
Lemma seed_one_created (self : ref) (c : string) (g : Z) (w : World) :
  session_new w = [] -> calm 2 w = true ->
  heap w !! self = Some (mkChannel PNone (PStr c) (PDict []) (PInt g)) ->
  valid_group w g = true ->
  let row := mkRow (next_rowid (channels w)) c (PDict []) g in
  seed_one self w =
    (Ok tt, mkWorld (<[self := mkChannel (PInt (col_id row)) (PStr c) (PDict []) (PInt g)]> (heap w))
                    (groups w) (channels w ++ [row]) [] (stdout w ++ [created_line row])
                    (tail (tail (env w))) (fk_enforced w) (db_log w ++ [EvCommit [row]])).
Proof.
  intros Hs Hc Hself Hv row.
  unfold seed_one, try_except. rewrite insert_channel_unfold.
  rewrite (add_commit_fresh self _ w Hs Hc Hself eq_refl).
  rewrite (insert_row_valid w _ _ _ _ _ Hv). cbn [col_id].
  unfold bind, Channel_repr, bind.
  erewrite deref_lookup.
  2:{ cbn [heap]. apply list_lookup_insert_eq. now apply lookup_lt_Some in Hself. }
  reflexivity.
Qed.

(** *** The whole loop *)

Lemma valid_group_same (w w' : World) (g : Z) :
  groups w' = groups w -> fk_enforced w' = fk_enforced w ->
  valid_group w' g = valid_group w g.
Proof. unfold valid_group. now intros -> ->. Qed.

(** The loop over freshly built channels, with no fault due: each one is
    committed in a transaction of its own, in list order. *)
Lemma seed_loop_created (plan : list (string * Z)) :
  forall (base : nat) (w : World),
    session_new w = [] -> calm (2 * length plan) w = true ->
    (forall i c g, plan !! i = Some (c, g) ->
       heap w !! (base + i)%nat = Some (mkChannel PNone (PStr c) (PDict []) (PInt g)) /\
       valid_group w g = true) ->
    exists w',
      for_each (seq base (length plan)) seed_one w = (Ok tt, w') /\
      channels w' = channels w ++ number_rows (next_rowid (channels w)) plan /\
      db_log w' = db_log w ++
                  map (fun row => EvCommit [row]) (number_rows (next_rowid (channels w)) plan) /\
      stdout w' = stdout w ++ map created_line (number_rows (next_rowid (channels w)) plan) /\
      session_new w' = [] /\ groups w' = groups w.
Proof.
  induction plan as [|[c g] rest IH]; intros base w Hs Hc Hobjs.
  - exists w. cbn. rewrite !app_nil_r. repeat split. exact Hs.
  - cbn [length seq for_each].
    replace (2 * length ((c, g) :: rest))%nat with (S (S (2 * length rest))) in Hc
      by (cbn [length]; lia).
    destruct (calm_two_later _ w _ Hc eq_refl) as [Hc2 Hlater].
    destruct (Hobjs 0%nat c g eq_refl) as [Hself Hv].
    rewrite Nat.add_0_r in Hself.
    pose proof (seed_one_created base c g w Hs Hc2 Hself Hv) as Hone.
    cbn zeta in Hone. unfold bind at 1. rewrite Hone.
    set (row := mkRow (next_rowid (channels w)) c (PDict []) g) in *.
    match goal with |- context [for_each _ seed_one ?x] => set (w1 := x) end.
    destruct (IH (S base) w1) as (w' & Hrun & Ht & Hl & Hout & Hs' & Hg').
    + reflexivity.
    + now apply Hlater.
    + intros i c' g' Hi. destruct (Hobjs (S i) c' g' Hi) as [Hobj Hv']. split.
      * subst w1. cbn [heap]. rewrite list_lookup_insert_ne by lia.
        now replace (S base + i)%nat with (base + S i)%nat by lia.
      * now rewrite (valid_group_same w w1).
    + exists w'. split; [exact Hrun|].
      assert (Hnext : next_rowid (channels w1) = next_rowid (channels w) + 1).
      { subst w1. cbn [channels]. now apply next_rowid_snoc. }
      rewrite Hnext in Ht, Hl, Hout. subst w1. cbn [channels db_log stdout groups] in *.
      cbn [number_rows map]. fold row.
      rewrite Ht, Hl, Hout, <- !app_assoc. repeat split; assumption.
Qed.

(** *** The fixed channels *)

Lemma map_lookup {A B : Type} (f : A -> B) (l : list A) (i : nat) :
  map f l !! i = f <$> l !! i.
Proof.
  revert i. induction l as [|x l IH]; intros [|i]; try reflexivity. cbn. apply IH.
Qed.

Lemma seed_channels_ok (w : World) :
  all_groups_present w = true ->
  seed_channels w =
    (Ok (seq (length (heap w)) 16),
     set_heap (heap w ++ map planned_channel (resolved_plan w)) w).
Proof.
  destruct w as [h gs t p out fs fk lg]. unfold all_groups_present. cbn. intros H.
  repeat match type of H with
         | context [Group_first ?n ?l] =>
             destruct (Group_first n l) eqn:?; cbn in H; try discriminate H
         end.
  unfold seed_channels, Channel_of, Group_query_first, Group_dot_id, Channel, bind, ret,
    set_heap, resolved_plan, group_id_of, planned_channel.
  cbn.
  repeat match goal with
         | E : Group_first ?n ?l = Some _ |- context [Group_first ?n ?l] => rewrite E; cbn
         end.
  f_equal.
  - f_equal. rewrite !length_app. cbn [length]. repeat (f_equal; try lia).
  - f_equal. rewrite <- !app_assoc. reflexivity.
Qed.

Lemma group_found_exists (gs : list Group) (n : string) (g : Group) :
  Group_first n gs = Some g -> group_exists gs (Group_id g) = true.
Proof.
  unfold Group_first, group_exists. intros H. apply find_some in H as [Hin _].
  apply existsb_exists. exists g. split; [exact Hin | apply Z.eqb_refl].
Qed.

Lemma resolved_group_valid (w : World) (n : string) :
  all_groups_present w = true -> In n seed_groups ->
  valid_group w (group_id_of (groups w) n) = true.
Proof.
  unfold all_groups_present, valid_group, group_id_of. intros H Hin.
  rewrite forallb_forall in H. specialize (H n Hin).
  destruct (Group_first n (groups w)) as [g|] eqn:Hg; [|discriminate].
  rewrite (group_found_exists _ _ _ Hg). unfold Group_id.
  rewrite wrap64_in_int64. apply orb_true_r.
Qed.

Lemma seed_plan_groups (c n : string) : In (c, n) seed_plan -> In n seed_groups.
Proof.
  intros H. cbn in H.
  repeat (destruct H as [H|H]; [inversion H; subst; cbn; tauto|]).
  destruct H.
Qed.

(** A run of the seeder with the groups present, a clean session and no
    fault due. *)
Lemma initChannels_created (w : World) :
  all_groups_present w = true -> session_new w = [] -> calm 32 w = true ->
  exists w',
    initChannels w = (Ok tt, w') /\
    channels w' = channels w ++ number_rows (next_rowid (channels w)) (resolved_plan w) /\
    db_log w' = db_log w ++
                map (fun row => EvCommit [row])
                    (number_rows (next_rowid (channels w)) (resolved_plan w)) /\
    stdout w' = stdout w ++
                map created_line (number_rows (next_rowid (channels w)) (resolved_plan w)).
Proof.
  intros Hg Hs Hc.
  unfold initChannels, db_create_all, ret. unfold bind at 1 2.
  rewrite (seed_channels_ok w Hg).
  set (w1 := set_heap (heap w ++ map planned_channel (resolved_plan w)) w).
  destruct (seed_loop_created (resolved_plan w) (length (heap w)) w1)
    as (w' & Hrun & Ht & Hl & Hout & _ & _).
  - exact Hs.
  - exact Hc.
  - intros i c g Hi. split.
    + subst w1. cbn [heap set_heap]. rewrite lookup_app_r by lia.
      replace (length (heap w) + i - length (heap w))%nat with i by lia.
      rewrite map_lookup, Hi. reflexivity.
    + rewrite (valid_group_same w w1) by reflexivity.
      apply list_elem_of_lookup_2, list_elem_of_In in Hi.
      unfold resolved_plan in Hi. apply in_map_iff in Hi as ([c' n] & Heq & Hin).
      inversion Heq; subst. apply (resolved_group_valid w n Hg).
      exact (seed_plan_groups _ _ Hin).
  - exists w'. repeat split; assumption.
Qed.

(** C8. With the eight groups present, a clean session and no fault due,
    [initChannels] returns having persisted the sixteen fixed channels one
    at a time and in list order: the four home-page channels, then the
    twelve shared-interest channels, each with the id of the group its
    group name resolves to.  The table gains exactly these sixteen rows,
    numbered in that order; each row is the single insert of a commit of
    its own; each is reported by one line. *)
Theorem seeder_persists_sixteen_in_order (w : World) :
  all_groups_present w = true -> session_new w = [] -> calm 32 w = true ->
  let rows := number_rows (next_rowid (channels w)) (resolved_plan w) in
  exists w',
    initChannels w = (Ok tt, w') /\
    channels w' = channels w ++ rows /\
    db_log w' = db_log w ++ map (fun row => EvCommit [row]) rows /\
    stdout w' = stdout w ++ map created_line rows /\
    map col_name rows = map fst (home_page_plan ++ shared_interest_plan) /\
    map col_group_id rows =
      map (fun cn => group_id_of (groups w) (snd cn)) (home_page_plan ++ shared_interest_plan).
Proof.
  intros Hg Hs Hc rows.
  destruct (initChannels_created w Hg Hs Hc) as (w' & Hrun & Ht & Hl & Hout).
  exists w'. fold rows in Ht, Hl, Hout.
  split; [exact Hrun|]. split; [exact Ht|]. split; [exact Hl|]. split; [exact Hout|].
  subst rows. unfold resolved_plan, seed_plan. split; reflexivity.
Qed.

Lemma seeder_persists_sixteen_in_order_witness :
  all_groups_present seeded_groups_world = true /\
  session_new seeded_groups_world = [] /\
  calm 32 seeded_groups_world = true /\
  exists w',
    initChannels seeded_groups_world = (Ok tt, w') /\
    map (fun row => (col_id row, col_name row, col_group_id row)) (channels w') =
      [(1, "Announcements", 1); (2, "Events", 1); (3, "FAQ", 2); (4, "Help Desk", 2);
       (5, "Penpal Letters", 3); (6, "Game vs Poway", 4); (7, "Game vs Westview", 4);
       (8, "Math", 5); (9, "English", 5); (10, "Artist", 6); (11, "Music Genre", 6);
       (12, "Humor", 7); (13, "Memes", 7); (14, "Irony", 7);
       (15, "Cyber Patriots", 8); (16, "Robotics", 8)].
Proof.
  split; [reflexivity|]. split; [reflexivity|]. split; [reflexivity|].
  destruct (seeder_persists_sixteen_in_order seeded_groups_world eq_refl eq_refl eq_refl)
    as (w' & Hrun & Ht & _).
  exists w'. split; [exact Hrun|]. rewrite Ht. reflexivity.
Defined.

(** ** Errors during seeding *)

Lemma flush_length (fk : bool) (gs : list Group) (t : list Row) (pending : list ref) :
  forall (h : list ChannelObj) (done : list Row) (h' : list ChannelObj) (rows : list Row),
    flush fk gs t pending h done = inr (h', rows) -> length h' = length h.
Proof.
  induction pending as [|r rest IH]; intros h done h' rows Hf; cbn [flush] in Hf.
  - now inversion Hf.
  - destruct (h !! r) as [o|]; [|discriminate].
    destruct (is_none (id_ o)).
    + destruct (insert_row fk gs (next_rowid (t ++ done)) o) as [e|row]; [discriminate|].
      rewrite (IH _ _ _ _ Hf). apply length_insert.
    + exact (IH _ _ _ _ Hf).
Qed.

(** When the body of the [try] raises, it is [add] or [commit] that
    raised, and the tables, the output and the log are as before. *)
Lemma insert_channel_raises (channel : ref) (w w1 : World) (e : Exc) :
  insert_channel channel w = (Raise e, w1) ->
  (db_session_add channel ;; db_session_commit) w = (Raise e, w1) /\
  channels w1 = channels w /\ stdout w1 = stdout w /\ db_log w1 = db_log w /\
  heap w1 = heap w.
Proof.
  rewrite insert_channel_unfold.
  destruct (add_commit_cases channel w)
    as [(h & rows & Hflush & Hrun & [o Ho])|(e' & w' & Hrun & Hh & _ & Ht & Hout & _ & Hl)];
    rewrite Hrun.
  - apply flush_length in Hflush.
    assert (Hlt : (channel < length h)%nat).
    { rewrite Hflush. now apply lookup_lt_Some in Ho. }
    apply lookup_lt_is_Some_2 in Hlt as [o' Ho'].
    unfold bind, Channel_repr, bind, deref. cbn [heap]. rewrite Ho'. discriminate.
  - intros H. inversion H; subst. repeat split; assumption.
Qed.

Lemma for_each_app {A : Type} (xs ys : list A) (body : A -> M unit) (w : World) :
  for_each (xs ++ ys) body w =
    match for_each xs body w with
    | (Ok _, w') => for_each ys body w'
    | (Raise e, w') => (Raise e, w')
    end.
Proof.
  revert w. induction xs as [|x xs IH]; intros w; [reflexivity|].
  cbn [app for_each]. unfold bind.
  destruct (body x w) as [[[]|e] w']; [apply IH | reflexivity].
Qed.

(** C7. Whenever, in a run of the seeder, the insert of a channel raises
    an exception that is not an instance of the handler's
    [IntegrityError], the handler does not run: [initChannels] raises that
    exception to its caller, in the world the failed insert left (no
    rollback, no line printed, no row written), and the channels after it
    in the list are never attempted. *)
Theorem unrecognized_error_halts_seeding
    (w w0 w1 w2 : World) (before after : list ref) (channel : ref) (e : Exc) :
  seed_channels w = (Ok (before ++ channel :: after), w0) ->
  for_each before seed_one w0 = (Ok tt, w1) ->
  insert_channel channel w1 = (Raise e, w2) ->
  isinstance e IntegrityError = false ->
  seed_one channel w1 = (Raise e, w2) /\
  for_each (before ++ channel :: after) seed_one w0 = (Raise e, w2) /\
  initChannels w = (Raise e, w2) /\
  channels w2 = channels w1 /\ stdout w2 = stdout w1 /\ db_log w2 = db_log w1.
Proof.
  intros Hseed Hbefore Hins Hclass.
  assert (Hone : seed_one channel w1 = (Raise e, w2)).
  { unfold seed_one, try_except. now rewrite Hins, Hclass. }
  assert (Hloop : for_each (before ++ channel :: after) seed_one w0 = (Raise e, w2)).
  { rewrite for_each_app, Hbefore. cbn [for_each]. unfold bind. now rewrite Hone. }
  destruct (insert_channel_raises _ _ _ _ Hins) as (_ & Ht & Hout & Hl & _).
  split; [exact Hone|]. split; [exact Hloop|]. split; [|now repeat split].
  unfold initChannels, db_create_all, ret. unfold bind at 1 2. now rewrite Hseed.
Qed.

Lemma unrecognized_error_halts_seeding_witness :
  let w0 := snd (seed_channels locked_world) in
  let w1 := snd (for_each [0%nat] seed_one w0) in
  let w2 := snd (insert_channel 1%nat w1) in
  isinstance database_is_locked IntegrityError = false /\
  initChannels locked_world = (Raise database_is_locked, w2) /\
  map col_name (channels w2) = ["Announcements"] /\
  stdout w2 = ["Record created: Channel(id=1, name=Announcements, group_id=1, attributes={})"] /\
  db_log w2 = [EvCommit [mkRow 1 "Announcements" (PDict []) 1]].
Proof.
  intros w0 w1 w2. split; [reflexivity|].
  split; [|conjuncts; evaluate].
  apply (unrecognized_error_halts_seeding locked_world w0 w1 w2
           [0%nat] (seq 2 14) 1%nat database_is_locked); evaluate.
Defined.

(** ** Conflicts during seeding *)

Lemma skip_channel_run (channel : ref) (o : ChannelObj) (w : World) :
  heap w !! channel = Some o ->
  skip_channel channel w =
    (Ok tt, mkWorld (heap w) (groups w) (channels w) [] (stdout w ++ [skipped_line (_name o)])
                    (env w) (fk_enforced w) (db_log w ++ [EvRollback])).
Proof.
  intros H. unfold skip_channel, bind, db_session_rollback, Channel_name, bind, deref.
  cbn [heap set_db_log set_session_new]. rewrite H. reflexivity.
Qed.

(** The handler and a second run. When the insert of a channel raises an
    exception that is an instance of the handler's [IntegrityError], the
    session is rolled back, nothing of that insert is written, the line
    "Records exist, duplicate email, or error: <name>" is printed, and the
    loop goes on with the channels that remain.  Running the seeder on a
    store that already holds records (with the groups present, a clean
    session and no fault due) raises nothing and leaves those records as
    they were; the table declares no uniqueness on names, so the run meets
    no conflict and appends its sixteen rows again, under new ids. *)
Theorem recognised_conflict_skipped_and_rerun_keeps_rows
    (w w1 : World) (channel : ref) (rest : list ref) (o : ChannelObj) (e : Exc)
    (ws : World) :
  insert_channel channel w = (Raise e, w1) ->
  isinstance e IntegrityError = true ->
  heap w !! channel = Some o ->
  all_groups_present ws = true -> session_new ws = [] -> calm 32 ws = true ->
  (exists w2,
     seed_one channel w = (Ok tt, w2) /\
     channels w2 = channels w /\
     session_new w2 = [] /\
     db_log w2 = db_log w ++ [EvRollback] /\
     stdout w2 = stdout w ++ [skipped_line (_name o)] /\
     for_each (channel :: rest) seed_one w = for_each rest seed_one w2)
  /\
  (exists ws',
     initChannels ws = (Ok tt, ws') /\
     channels ws' = channels ws ++ number_rows (next_rowid (channels ws)) (resolved_plan ws)).
Proof.
  intros Hins Hclass Hobj Hg Hs Hc. split.
  - destruct (insert_channel_raises _ _ _ _ Hins) as (_ & Ht & Hout & Hl & Hh).
    assert (Hone : seed_one channel w = skip_channel channel w1).
    { unfold seed_one, try_except. now rewrite Hins, Hclass. }
    rewrite <- Hh in Hobj. rewrite (skip_channel_run _ _ _ Hobj) in Hone.
    eexists. split; [exact Hone|]. cbn [channels session_new db_log stdout].
    split; [exact Ht|]. split; [reflexivity|].
    split; [now rewrite Hl|]. split; [now rewrite Hout|].
    cbn [for_each]. unfold bind. now rewrite Hone.
  - destruct (initChannels_created ws Hg Hs Hc) as (ws' & Hrun & Ht & _).
    exists ws'. split; assumption.
Qed.

Lemma recognised_conflict_skipped_and_rerun_keeps_rows_witness :
  let w := snd (seed_channels
                  (set_env [None; Some sqlite_unique_conflict] seeded_groups_world)) in
  let w1 := snd (insert_channel 0%nat w) in
  (insert_channel 0%nat w = (Raise sqlite_unique_conflict, w1) /\
   isinstance sqlite_unique_conflict IntegrityError = true /\
   heap w !! 0%nat = Some (planned_channel ("Announcements", 1)) /\
   all_groups_present seeded_world = true /\
   session_new seeded_world = [] /\
   calm 32 seeded_world = true)
  /\
  (exists w2,
     seed_one 0%nat w = (Ok tt, w2) /\
     channels w2 = channels w /\
     session_new w2 = [] /\
     db_log w2 = db_log w ++ [EvRollback] /\
     stdout w2 = stdout w ++ ["Records exist, duplicate email, or error: Announcements"] /\
     for_each (0%nat :: seq 1 15) seed_one w = for_each (seq 1 15) seed_one w2)
  /\
  (exists ws',
     initChannels seeded_world = (Ok tt, ws') /\
     channels ws' =
       channels seeded_world ++
       number_rows (next_rowid (channels seeded_world)) (resolved_plan seeded_world)).
Proof.
  intros w w1.
  split; [conjuncts; evaluate|].
  apply (recognised_conflict_skipped_and_rerun_keeps_rows w w1 0%nat (seq 1 15)
           (planned_channel ("Announcements", 1)) sqlite_unique_conflict seeded_world);
    evaluate.
Defined.

(** Re-running the seeder on the store it has seeded meets no uniqueness
    conflict.  All sixteen inserts are committed again
    (the rows are there twice), none is rolled back, and the lines printed
    are sixteen more "Record created" lines. *)
Lemma reseeding_meets_no_conflict :
  exists w',
    initChannels seeded_world = (Ok tt, w') /\
    map col_name (channels seeded_world) = map fst seed_plan /\
    map col_name (channels w') = map fst seed_plan ++ map fst seed_plan /\
    map col_id (channels w') = map Z.of_nat (seq 1 32) /\
    existsb (fun ev => match ev with EvRollback => true | EvCommit _ => false end)
            (db_log w') = false /\
    stdout w' = map created_line (channels w').
Proof. exists (snd (initChannels seeded_world)). conjuncts; evaluate. Qed.

(** C1. The handler misses the conflicts of the store.  An integrity
    error that the session raises is a [sqlalchemy.exc.IntegrityError],
    which is not an instance of the [sqlite3] class that line 2 imports
    and the handler names.  In the seeded store, when the first commit of
    a run is refused for a uniqueness conflict, the handler does not run:
    [initChannels] raises that exception, with no rollback, no line
    printed, and the fifteen channels that remain never attempted. *)
Lemma store_conflict_is_not_handled :
  let w := set_env [None; Some store_unique_conflict] seeded_world in
  isinstance store_unique_conflict IntegrityError = false /\
  exists w',
    initChannels w = (Raise store_unique_conflict, w') /\
    seed_one (length (heap w)) (snd (seed_channels w)) = (Raise store_unique_conflict, w') /\
    channels w' = channels w /\ db_log w' = db_log w /\ stdout w' = stdout w.
Proof.
  intros w. split; [reflexivity|].
  exists (snd (initChannels w)). conjuncts; evaluate.
Qed.

(** * Further properties *)

(** ** What no operation does *)

Section Keeps.
Variable R : World -> World -> Prop.
Hypothesis R_refl : forall w, R w w.
Hypothesis R_trans : forall w1 w2 w3, R w1 w2 -> R w2 w3 -> R w1 w3.

Lemma keeps_ret {A : Type} (a : A) : keeps R (ret a).
Proof. intros w. apply R_refl. Qed.

Lemma keeps_raise {A : Type} (e : Exc) : keeps R (@raise A e).
Proof. intros w. apply R_refl. Qed.

Lemma keeps_bind {A B : Type} (m : M A) (k : A -> M B) :
  keeps R m -> (forall a, keeps R (k a)) -> keeps R (bind m k).
Proof.
  intros Hm Hk w. unfold bind. specialize (Hm w).
  destruct (m w) as [[a|e] w1]; cbn [snd] in *; [|exact Hm].
  exact (R_trans _ _ _ Hm (Hk a w1)).
Qed.

Lemma keeps_try_except {A : Type} (body : M A) (C : ExcClass) (handler : Exc -> M A) :
  keeps R body -> (forall e, keeps R (handler e)) -> keeps R (try_except body C handler).
Proof.
  intros Hb Hh w. unfold try_except. specialize (Hb w).
  destruct (body w) as [[a|e] w1]; cbn [snd] in *; [exact Hb|].
  destruct (isinstance e C); [|exact Hb].
  exact (R_trans _ _ _ Hb (Hh e w1)).
Qed.

Lemma keeps_for_each {A : Type} (xs : list A) (body : A -> M unit) :
  (forall x, keeps R (body x)) -> keeps R (for_each xs body).
Proof.
  intros Hb. induction xs as [|x xs IH]; cbn [for_each].
  - apply keeps_ret.
  - apply keeps_bind; [apply Hb | intros _; exact IH].
Qed.
End Keeps.

Lemma evolves_refl (w : World) : evolves w w.
Proof.
  repeat split.
  - exists []. now rewrite app_nil_r.
  - intros r o Hr. exists o. repeat split; auto.
Qed.

Lemma evolves_trans (w1 w2 w3 : World) : evolves w1 w2 -> evolves w2 w3 -> evolves w1 w3.
Proof.
  intros ([rows Ht] & Hg & Hfk & Hh) ([rows' Ht'] & Hg' & Hfk' & Hh').
  repeat split.
  - exists (rows ++ rows'). now rewrite Ht', Ht, app_assoc.
  - congruence.
  - congruence.
  - intros r o Hr.
    destruct (Hh r o Hr) as (o2 & Hr2 & (Hn & Ha & Hgid) & Hid).
    destruct (Hh' r o2 Hr2) as (o3 & Hr3 & (Hn' & Ha' & Hgid') & Hid').
    exists o3. split; [exact Hr3|]. split.
    + repeat split; congruence.
    + intros Hp. specialize (Hid Hp). subst o2. now apply Hid'.
Qed.

(** A world that differs from [w] in neither the heap, the tables nor the
    foreign-key setting. *)
Lemma evolves_same (w w' : World) :
  heap w' = heap w -> channels w' = channels w -> groups w' = groups w ->
  fk_enforced w' = fk_enforced w -> evolves w w'.
Proof.
  intros Hh Ht Hg Hfk. repeat split; try assumption.
  - exists []. now rewrite app_nil_r.
  - intros r o Hr. rewrite Hh. exists o. repeat split; auto.
Qed.

Lemma flush_fields (fk : bool) (gs : list Group) (t : list Row) (pending : list ref) :
  forall (h : list ChannelObj) (done : list Row) (h' : list ChannelObj) (rows : list Row),
    flush fk gs t pending h done = inr (h', rows) ->
    forall r o, h !! r = Some o ->
      exists o', h' !! r = Some o' /\ same_fields o o' /\ (is_none (id_ o) = false -> o' = o).
Proof.
  induction pending as [|r0 rest IH]; intros h done h' rows Hf r o Hr; cbn [flush] in Hf.
  - inversion Hf; subst. exists o. repeat split; auto.
  - destruct (h !! r0) as [o0|] eqn:H0; [|discriminate].
    destruct (is_none (id_ o0)) eqn:Hid; [|exact (IH _ _ _ _ Hf r o Hr)].
    destruct (insert_row fk gs (next_rowid (t ++ done)) o0) as [e|row]; [discriminate|].
    destruct (decide (r0 = r)) as [Heq|Hne].
    + subst r0. assert (o0 = o) by congruence. subst o0.
      assert (Hr' : <[r := with_id (col_id row) o]> h !! r = Some (with_id (col_id row) o)).
      { apply list_lookup_insert_eq. now apply lookup_lt_Some in Hr. }
      destruct (IH _ _ _ _ Hf r _ Hr') as (o' & Ho' & (Hn & Ha & Hg) & _).
      exists o'. split; [exact Ho'|]. split; [now repeat split|].
      intros Hp. congruence.
    + apply (IH _ _ _ _ Hf r o). now rewrite list_lookup_insert_ne.
Qed.

Lemma keeps_fault : keeps evolves fault.
Proof. intros w. unfold fault. destruct (head (env w)) as [[e|]|]; now apply evolves_same. Qed.

Lemma keeps_deref (r : ref) : keeps evolves (deref r).
Proof. intros w. unfold deref. destruct (heap w !! r); apply evolves_refl. Qed.

Lemma keeps_print (line : string) : keeps evolves (print line).
Proof. intros w. now apply evolves_same. Qed.

Lemma keeps_rollback : keeps evolves db_session_rollback.
Proof. intros w. now apply evolves_same. Qed.

Lemma keeps_add (r : ref) : keeps evolves (db_session_add r).
Proof.
  unfold db_session_add.
  apply keeps_bind; [apply evolves_trans | apply keeps_fault | intros _].
  apply keeps_bind; [apply evolves_trans | apply keeps_deref | intros o].
  intros w. destruct (is_none (id_ o) && negb (existsb (Nat.eqb r) (session_new w)));
    now apply evolves_same.
Qed.

Lemma keeps_commit : keeps evolves db_session_commit.
Proof.
  unfold db_session_commit.
  apply keeps_bind; [apply evolves_trans | apply keeps_fault | intros _].
  intros w.
  destruct (flush (fk_enforced w) (groups w) (channels w) (session_new w) (heap w) [])
    as [e|[h rows]] eqn:Hf; cbn [snd]; [apply evolves_refl|].
  repeat split.
  - now exists rows.
  - intros r o Hr. exact (flush_fields _ _ _ _ _ _ _ _ Hf r o Hr).
Qed.

Lemma keeps_Channel (name group_id : PyVal) (attributes : option PyVal) :
  keeps evolves (Channel name group_id attributes).
Proof.
  intros w. repeat split.
  - exists []. cbn. now rewrite app_nil_r.
  - intros r o Hr. exists o. cbn. split; [|now repeat split].
    now apply lookup_app_l_Some.
Qed.

Lemma keeps_Channel_repr (self : ref) : keeps evolves (Channel_repr self).
Proof.
  unfold Channel_repr.
  apply keeps_bind; [apply evolves_trans | apply keeps_deref | intros o].
  apply keeps_ret, evolves_refl.
Qed.

Lemma keeps_Channel_name (self : ref) : keeps evolves (Channel_name self).
Proof.
  unfold Channel_name.
  apply keeps_bind; [apply evolves_trans | apply keeps_deref | intros o].
  apply keeps_ret, evolves_refl.
Qed.

Lemma keeps_create (self : ref) : keeps evolves (create self).
Proof.
  unfold create. apply keeps_try_except; [apply evolves_trans | |].
  - apply keeps_bind; [apply evolves_trans | apply keeps_add | intros _; apply keeps_commit].
  - intros e. apply keeps_bind; [apply evolves_trans | apply keeps_rollback | intros _].
    apply keeps_raise, evolves_refl.
Qed.

Lemma keeps_seed_one (channel : ref) : keeps evolves (seed_one channel).
Proof.
  unfold seed_one, insert_channel, skip_channel.
  apply keeps_try_except; [apply evolves_trans | |].
  - apply keeps_bind; [apply evolves_trans | apply keeps_add | intros _].
    apply keeps_bind; [apply evolves_trans | apply keeps_commit | intros _].
    apply keeps_bind; [apply evolves_trans | apply keeps_Channel_repr | intros r].
    apply keeps_print.
  - intros _. apply keeps_bind; [apply evolves_trans | apply keeps_rollback | intros _].
    apply keeps_bind; [apply evolves_trans | apply keeps_Channel_name | intros n].
    apply keeps_print.
Qed.

Lemma keeps_Group_query_first (n : string) : keeps evolves (Group_query_first n).
Proof. intros w. apply evolves_refl. Qed.

Lemma keeps_Channel_of (n : string) (g : option Group) : keeps evolves (Channel_of n g).
Proof.
  unfold Channel_of. apply keeps_bind; [apply evolves_trans | | intros gid; apply keeps_Channel].
  destruct g; [apply keeps_ret | apply keeps_raise]; apply evolves_refl.
Qed.

Lemma keeps_seed_channels : keeps evolves seed_channels.
Proof.
  unfold seed_channels.
  repeat first
    [ apply keeps_ret, evolves_refl
    | apply keeps_bind;
      [ apply evolves_trans
      | first [apply keeps_Group_query_first | apply keeps_Channel_of]
      | intros ? ] ].
Qed.

(** X1. Whatever the world (faults due, objects pending, groups missing)
    and whether it returns or raises, [create] only appends rows to the
    table [channels]: the rows that were there are still there, in place;
    it leaves the groups alone; every object is still there, and an object
    whose name is a string or [None] and whose group is an integer or
    [None] has the name, the attributes and the group it had. *)
Theorem create_only_appends (self : ref) (w : World) :
  let w' := snd (create self w) in
  (exists rows, channels w' = channels w ++ rows) /\
  groups w' = groups w /\
  (forall r o, heap w !! r = Some o ->
     exists o', heap w' !! r = Some o' /\
                (typed_fields o = true -> same_fields o o')).
Proof.
  intros w'. destruct (keeps_create self w) as (Ht & Hg & _ & Hh).
  split; [exact Ht|]. split; [exact Hg|].
  intros r o Hr. destruct (Hh r o Hr) as (o' & Ho' & Hsame & _).
  exists o'. split; [exact Ho' | intros _; exact Hsame].
Qed.

(** X2. Whatever the world, and whether it returns or raises (a group
    missing, a conflict skipped, an error of the database), [initChannels]
    only appends rows to the table [channels], leaves the groups alone
    and changes no field but the id of the objects it finds, and nothing
    of those already persisted. *)
Theorem initChannels_only_appends (w : World) :
  let w' := snd (initChannels w) in
  (exists rows, channels w' = channels w ++ rows) /\
  groups w' = groups w /\
  (forall r o, heap w !! r = Some o ->
     exists o', heap w' !! r = Some o' /\ same_fields o o' /\
                (is_none (id_ o) = false -> o' = o)).
Proof.
  intros w'.
  assert (Hk : keeps evolves initChannels).
  { unfold initChannels, db_create_all.
    apply keeps_bind; [apply evolves_trans | apply keeps_ret, evolves_refl | intros _].
    apply keeps_bind; [apply evolves_trans | apply keeps_seed_channels | intros cs].
    apply keeps_for_each; [apply evolves_refl | apply evolves_trans | apply keeps_seed_one]. }
  destruct (Hk w) as (Ht & Hg & _ & Hh).
  split; [exact Ht|]. split; [exact Hg | exact Hh].
Qed.

(** X3. The [name] property of a Channel built with a string, or with
    [None], as its name is that value, and [create] does not change it: it
    is the same after [create], in every world, whatever the group and the
    attributes, whether [create] returned or raised.  Reading it changes
    nothing. *)
Theorem name_is_read_only (name : option string) (group_id : PyVal)
    (attributes : option PyVal) (w : World) :
  let n := from_option PStr PNone name in
  exists self w1,
    Channel n group_id attributes w = (Ok self, w1) /\
    Channel_name self w1 = (Ok n, w1) /\
    Channel_name self (snd (create self w1)) = (Ok n, snd (create self w1)).
Proof.
  intros n. eexists _, _. split; [apply Channel_run|].
  pose proof (heap_alloc_lookup w (Channel_init n group_id attributes)) as Hself.
  split.
  - unfold Channel_name, bind. now rewrite (deref_lookup _ _ _ Hself).
  - destruct (keeps_create (length (heap w))
                (set_heap (heap w ++ [Channel_init n group_id attributes]) w))
      as (_ & _ & _ & Hh).
    destruct (Hh _ _ Hself) as (o' & Ho' & (Hn & _ & _) & _).
    unfold Channel_name, bind. rewrite (deref_lookup _ _ _ Ho'). cbn [ret].
    now rewrite Hn.
Qed.

(** X4. [__repr__] of a Channel with a string name, a group the store
    takes and a mapping of ASCII strings as attributes shows [id=None]
    until the Channel is persisted and the id the store assigned
    afterwards, the name without quotes, the group id and the attributes;
    it changes nothing. *)
Theorem repr_shows_id_once_persisted (w : World) (name : string) (group_id : Z)
    (attributes : option (list (string * PyVal))) :
  session_new w = [] -> calm 2 w = true -> valid_group w group_id = true ->
  ascii_value (PDict (default [] attributes)) = true ->
  let tail_ := ", name=" +:+ name +:+ ", group_id=" +:+ str_of_Z group_id
               +:+ ", attributes=" +:+ py_repr (PDict (default [] attributes)) +:+ ")" in
  exists self w1 w2,
    Channel (PStr name) (PInt group_id) (PDict <$> attributes) w = (Ok self, w1) /\
    Channel_repr self w1 = (Ok ("Channel(id=None" +:+ tail_), w1) /\
    create self w1 = (Ok tt, w2) /\
    Channel_repr self w2 =
      (Ok ("Channel(id=" +:+ str_of_Z (next_rowid (channels w)) +:+ tail_), w2).
Proof.
  intros Hs Hc Hv _ tail_.
  destruct (create_constructed w (PStr name) (PInt group_id) (PDict <$> attributes) Hs Hc)
    as [Hnew Hcreate].
  assert (Ho : Channel_init (PStr name) (PInt group_id) (PDict <$> attributes)
               = mkChannel PNone (PStr name) (PDict (default [] attributes)) (PInt group_id)).
  { unfold Channel_init. now rewrite py_or_supplied_mapping. }
  rewrite Ho in Hnew, Hcreate.
  rewrite (insert_row_valid w _ _ _ _ _ Hv) in Hcreate. cbn [col_id] in Hcreate.
  eexists _, _, _. split; [exact Hnew|]. split.
  { unfold Channel_repr, bind. rewrite (deref_lookup _ _ _ (heap_alloc_lookup w _)).
    reflexivity. }
  split; [exact Hcreate|].
  unfold Channel_repr, bind. erewrite deref_lookup.
  2:{ cbn [heap]. apply list_lookup_insert_eq. rewrite length_app. cbn. lia. }
  reflexivity.
Qed.

Lemma repr_shows_id_once_persisted_witness :
  session_new one_group_world = [] /\
  calm 2 one_group_world = true /\
  valid_group one_group_world 5 = true /\
  ascii_value (PDict [("pinned", PBool true)]) = true /\
  exists self w1 w2,
    Channel (PStr "Announcements") (PInt 5) (Some (PDict [("pinned", PBool true)]))
            one_group_world = (Ok self, w1) /\
    Channel_repr self w1 =
      (Ok "Channel(id=None, name=Announcements, group_id=5, attributes={'pinned': True})", w1) /\
    create self w1 = (Ok tt, w2) /\
    Channel_repr self w2 =
      (Ok "Channel(id=1, name=Announcements, group_id=5, attributes={'pinned': True})", w2).
Proof.
  split; [reflexivity|]. split; [reflexivity|]. split; [reflexivity|].
  split; [reflexivity|].
  exact (repr_shows_id_once_persisted one_group_world "Announcements" 5
           (Some [("pinned", PBool true)]) eq_refl eq_refl eq_refl eq_refl).
Defined.

(** ** [create] again, [create] with others pending, [create] after a failure *)

Lemma calm_heads (w : World) :
  calm 2 w = true ->
  (head (env w) = None \/ head (env w) = Some None) /\
  (head (tail (env w)) = None \/ head (tail (env w)) = Some None).
Proof.
  unfold calm. destruct (env w) as [|[e|] [|[e'|] fs]]; cbn; intros H;
    try discriminate; split; (now left) || now right.
Qed.

(** [create] of an object that has its id, in a clean session with no
    fault due: a commit with nothing in it. *)
Lemma create_persistent (self : ref) (o : ChannelObj) (w : World) :
  session_new w = [] -> calm 2 w = true ->
  heap w !! self = Some o -> is_none (id_ o) = false ->
  create self w =
    (Ok tt, mkWorld (heap w) (groups w) (channels w) [] (stdout w) (tail (tail (env w)))
                    (fk_enforced w) (db_log w ++ [EvCommit []])).
Proof.
  intros Hs Hc Hself Hid. destruct (calm_heads w Hc) as [H1 H2].
  unfold create. rewrite try_except_Exception.
  destruct w as [h gs t p out fs fk lg]. cbn in Hs, Hself, H1, H2. subst p.
  unfold db_session_add, db_session_commit, bind, fault, deref. cbn.
  destruct H1 as [-> | ->]; cbn; rewrite Hself; cbn; rewrite Hid; cbn;
    destruct H2 as [-> | ->]; cbn; now rewrite app_nil_r.
Qed.

(** X5. Calling [create] a second time on a Channel that was persisted
    writes nothing: in a clean session with no fault due, a Channel with
    a string name and a group the store accepts (a 64-bit integer that
    passes the foreign-key check) is written by the first
    [create], and the second [create] returns without adding a row or
    changing the object. *)
Theorem create_twice_writes_once (w : World) (name : string) (group_id : Z)
    (attributes : option (list (string * PyVal))) :
  session_new w = [] -> calm 4 w = true -> valid_group w group_id = true ->
  exists self w1 w2 w3,
    Channel (PStr name) (PInt group_id) (PDict <$> attributes) w = (Ok self, w1) /\
    create self w1 = (Ok tt, w2) /\
    create self w2 = (Ok tt, w3) /\
    channels w2 =
      channels w ++ [mkRow (next_rowid (channels w)) name (PDict (default [] attributes)) group_id] /\
    channels w3 = channels w2 /\
    heap w3 = heap w2.
Proof.
  intros Hs Hc Hv.
  destruct (calm_two_later 2 w _ Hc eq_refl) as [Hc2 Hlater].
  destruct (create_constructed w (PStr name) (PInt group_id) (PDict <$> attributes) Hs Hc2)
    as [Hnew Hcreate].
  assert (Ho : Channel_init (PStr name) (PInt group_id) (PDict <$> attributes)
               = mkChannel PNone (PStr name) (PDict (default [] attributes)) (PInt group_id)).
  { unfold Channel_init. now rewrite py_or_supplied_mapping. }
  rewrite Ho in Hnew, Hcreate.
  rewrite (insert_row_valid w _ _ _ _ _ Hv) in Hcreate. cbn [col_id] in Hcreate.
  match type of Hcreate with _ = (Ok tt, ?x) => set (w2 := x) in * end.
  set (o2 := with_id (next_rowid (channels w))
               (mkChannel PNone (PStr name) (PDict (default [] attributes)) (PInt group_id))).
  assert (Hself : heap w2 !! length (heap w) = Some o2).
  { subst w2. cbn [heap]. apply list_lookup_insert_eq. rewrite length_app. cbn. lia. }
  pose proof (create_persistent (length (heap w)) o2 w2 eq_refl (Hlater w2 eq_refl)
                Hself eq_refl) as Hagain.
  eexists _, _, _, _. split; [exact Hnew|]. split; [exact Hcreate|].
  split; [exact Hagain|]. repeat split.
Qed.

Lemma create_twice_writes_once_witness :
  session_new one_group_world = [] /\
  calm 4 one_group_world = true /\
  valid_group one_group_world 5 = true /\
  exists self w1 w2 w3,
    Channel (PStr "Math") (PInt 5) None one_group_world = (Ok self, w1) /\
    create self w1 = (Ok tt, w2) /\
    create self w2 = (Ok tt, w3) /\
    channels w2 = [mkRow 1 "Math" (PDict []) 5] /\
    channels w3 = channels w2 /\
    heap w3 = heap w2.
Proof.
  split; [reflexivity|]. split; [reflexivity|]. split; [reflexivity|].
  exact (create_twice_writes_once one_group_world "Math" 5 None eq_refl eq_refl eq_refl).
Defined.

Lemma pending_after_add_keeps (self r : ref) (w : World) :
  In r (session_new w) -> In r (pending_after_add self w).
Proof.
  intros Hin. unfold pending_after_add. destruct (heap w !! self) as [o|]; [|exact Hin].
  destruct (is_none (id_ o) && negb (existsb (Nat.eqb self) (session_new w))); [|exact Hin].
  apply in_or_app. now left.
Qed.

(** X6. [create] commits the whole session, not [self] alone: when it
    returns, every object that was pending in the session without an id,
    with a string name and an integer group, has been written as a row of
    [channels] with that name, that group and its attributes, and has
    received the id of that row. *)
Theorem create_flushes_all_pending (self r : ref) (o : ChannelObj) (s : string) (g : Z)
    (w w' : World) :
  create self w = (Ok tt, w') ->
  In r (session_new w) -> heap w !! r = Some o -> id_ o = PNone ->
  _name o = PStr s -> _group_id o = PInt g ->
  exists row,
    In row (channels w') /\
    col_name row = s /\
    col_group_id row = g /\
    col_attributes row = _attributes o /\
    heap w' !! r = Some (with_id (col_id row) o).
Proof.
  intros Hrun Hin Hr Hid Hname Hgroup.
  unfold create in Hrun. rewrite try_except_Exception in Hrun.
  destruct (add_commit_cases self w)
    as [(h & rows & Hflush & Hbody & _)|(e & w1 & Hbody & _)]; rewrite Hbody in Hrun.
  - inversion Hrun; subst w'. clear Hrun.
    assert (Hnone : is_none (id_ o) = true) by now rewrite Hid.
    destruct (flush_inserts _ _ _ _ r o _ _ _ _ Hflush
                (pending_after_add_keeps self r w Hin) Hr Hnone)
      as (row & Hrow & Hn & Hg & Ha & Hh).
    exists row. cbn [channels heap]. rewrite Hname in Hn. rewrite Hgroup in Hg.
    repeat split; try assumption; try congruence.
    apply in_or_app. now right.
  - unfold bind, db_session_rollback, raise in Hrun. discriminate Hrun.
Qed.

Lemma create_flushes_all_pending_witness :
  let w' := snd (create 1%nat one_pending_world) in
  create 1%nat one_pending_world = (Ok tt, w') /\
  In 0%nat (session_new one_pending_world) /\
  heap one_pending_world !! 0%nat = Some (mkChannel PNone (PStr "Math") (PDict []) (PInt 5)) /\
  exists row,
    In row (channels w') /\
    col_name row = "Math" /\
    col_group_id row = 5 /\
    col_attributes row = PDict [] /\
    heap w' !! 0%nat = Some (with_id (col_id row) (mkChannel PNone (PStr "Math") (PDict []) (PInt 5))).
Proof.
  intros w'. split; [reflexivity|]. split; [now left|]. split; [reflexivity|].
  apply (create_flushes_all_pending 1%nat 0%nat
           (mkChannel PNone (PStr "Math") (PDict []) (PInt 5)) "Math" 5 one_pending_world w');
    [reflexivity | now left | reflexivity | reflexivity | reflexivity | reflexivity].
Defined.

(** [add] then [commit] of an object that has no id yet, in a clean
    session, when the environment refuses the commit. *)
Lemma add_commit_refused (self : ref) (o : ChannelObj) (e : Exc)
    (later : list (option Exc)) (w : World) :
  session_new w = [] -> env w = None :: Some e :: later ->
  heap w !! self = Some o -> id_ o = PNone ->
  (db_session_add self ;; db_session_commit) w =
    (Raise e, mkWorld (heap w) (groups w) (channels w) [self] (stdout w) later
                      (fk_enforced w) (db_log w)).
Proof.
  destruct w as [h gs t p out fs fk lg]. cbn. intros -> -> Hself Hid.
  unfold db_session_add, db_session_commit, bind, fault, deref. cbn.
  rewrite Hself. cbn. rewrite Hid. reflexivity.
Qed.



(** ** [read] and the constructor *)

Lemma py_or_idempotent (a : PyVal) : py_or (py_or a (PDict [])) (PDict []) = py_or a (PDict []).
Proof. unfold py_or at 2 3. destruct (truthy a) eqn:Ha; [now apply py_or_truthy | reflexivity]. Qed.

(** X8. [read()] of a Channel that was just built has [None] for its id
    and holds all it takes to build the Channel again: the constructor
    given the [name], [group_id] and [attributes] entries of the
    dictionary builds an equal object, whatever the three arguments
    were. *)
Theorem read_rebuilds_the_channel (name group_id : PyVal) (attributes : option PyVal)
    (w : World) :
  exists self w1 d n g a,
    Channel name group_id attributes w = (Ok self, w1) /\
    read self w1 = (Ok d, w1) /\
    dict_get "id" d = Some PNone /\
    dict_get "name" d = Some n /\
    dict_get "group_id" d = Some g /\
    dict_get "attributes" d = Some a /\
    Channel_init n g (Some a) = Channel_init name group_id attributes.
Proof.
  eexists _, _, _, _, _, _. split; [apply Channel_run|].
  split; [apply read_lookup, heap_alloc_lookup|].
  repeat (split; [reflexivity|]).
  unfold Channel_init. cbn -[py_or].
  now rewrite py_or_idempotent.
Qed.

(** ** The seeder, with a failure at one channel *)

Lemma calm_replicate (n : nat) (rest : list (option Exc)) (w : World) :
  env w = replicate n None ++ rest -> calm n w = true.
Proof.
  unfold calm. intros ->.
  rewrite take_app_length' by now rewrite length_replicate.
  induction n as [|n IH]; [reflexivity | exact IH].
Qed.

Lemma drop_two_more {A : Type} (n : nat) (l : list A) :
  drop (S (S n)) l = drop n (tail (tail l)).
Proof. destruct l as [|x [|y l]]; cbn; try reflexivity; now rewrite ?drop_nil. Qed.

Lemma next_rowid_number_rows (plan : list (string * Z)) :
  forall t : list Row,
    next_rowid (t ++ number_rows (next_rowid t) plan) = next_rowid t + Z.of_nat (length plan).
Proof.
  induction plan as [|[c g] rest IH]; intros t; cbn [number_rows length].
  - rewrite app_nil_r. lia.
  - set (row := mkRow (next_rowid t) c (PDict []) g).
    assert (Hn : next_rowid (t ++ [row]) = next_rowid t + 1) by now apply next_rowid_snoc.
    rewrite <- Hn. change (t ++ row :: ?l) with (t ++ [row] ++ l).
    rewrite app_assoc, IH. lia.
Qed.

Lemma number_rows_app (l1 l2 : list (string * Z)) :
  forall start : Z,
    number_rows start (l1 ++ l2) =
      number_rows start l1 ++ number_rows (start + Z.of_nat (length l1)) l2.
Proof.
  induction l1 as [|[c g] l1 IH]; intros start; cbn [app number_rows length].
  - now rewrite Z.add_0_r.
  - rewrite IH. do 3 f_equal. lia.
Qed.

(** The objects [seed_channels] has built, and their groups. *)
Lemma planned_objects (w : World) :
  all_groups_present w = true ->
  forall i c g, resolved_plan w !! i = Some (c, g) ->
    (heap w ++ map planned_channel (resolved_plan w)) !! (length (heap w) + i)%nat
      = Some (mkChannel PNone (PStr c) (PDict []) (PInt g)) /\
    valid_group w g = true.
Proof.
  intros Hg i c g Hi. split.
  - rewrite lookup_app_r by lia.
    replace (length (heap w) + i - length (heap w))%nat with i by lia.
    rewrite map_lookup, Hi. reflexivity.
  - apply list_elem_of_lookup_2, list_elem_of_In in Hi.
    unfold resolved_plan in Hi. apply in_map_iff in Hi as ([c' n] & Heq & Hin).
    inversion Heq; subst. apply (resolved_group_valid w n Hg).
    exact (seed_plan_groups _ _ Hin).
Qed.

(** What the loop over freshly built channels leaves alone, and how much
    of the environment it uses up. *)
Lemma seed_loop_frame (plan : list (string * Z)) :
  forall (base : nat) (w w' : World),
    session_new w = [] -> calm (2 * length plan) w = true ->
    (forall i c g, plan !! i = Some (c, g) ->
       heap w !! (base + i)%nat = Some (mkChannel PNone (PStr c) (PDict []) (PInt g)) /\
       valid_group w g = true) ->
    for_each (seq base (length plan)) seed_one w = (Ok tt, w') ->
    fk_enforced w' = fk_enforced w /\
    env w' = drop (2 * length plan) (env w) /\
    (forall r, (r < base \/ base + length plan <= r)%nat -> heap w' !! r = heap w !! r).
Proof.
  induction plan as [|[c g] rest IH]; intros base w w' Hs Hc Hobjs Hrun.
  - cbn in Hrun. inversion Hrun; subst. repeat split.
  - cbn [length seq for_each] in Hrun.
    replace (2 * length ((c, g) :: rest))%nat with (S (S (2 * length rest))) in *
      by (cbn [length]; lia).
    destruct (calm_two_later _ w _ Hc eq_refl) as [Hc2 Hlater].
    destruct (Hobjs 0%nat c g eq_refl) as [Hself Hv].
    rewrite Nat.add_0_r in Hself.
    pose proof (seed_one_created base c g w Hs Hc2 Hself Hv) as Hone.
    cbn zeta in Hone. unfold bind at 1 in Hrun. rewrite Hone in Hrun.
    match type of Hrun with for_each _ seed_one ?x = _ => set (w1 := x) in * end.
    destruct (IH (S base) w1 w') as (Hfk & Henv & Hheap).
    + reflexivity.
    + now apply Hlater.
    + intros i c' g' Hi. destruct (Hobjs (S i) c' g' Hi) as [Hobj Hv']. split.
      * subst w1. cbn [heap]. rewrite list_lookup_insert_ne by lia.
        now replace (S base + i)%nat with (base + S i)%nat by lia.
      * now rewrite (valid_group_same w w1).
    + exact Hrun.
    + split; [exact Hfk|]. split.
      * rewrite Henv. subst w1. cbn [env]. now rewrite drop_two_more.
      * intros r Hr. rewrite Hheap by (cbn [length] in Hr; lia).
        subst w1. cbn [heap]. apply list_lookup_insert_ne. cbn [length] in Hr. lia.
Qed.

Lemma resolved_plan_length (w : World) : length (resolved_plan w) = 16%nat.
Proof. reflexivity. Qed.

Lemma seq_split_at (base k : nat) :
  (k < 16)%nat ->
  seq base 16 = seq base k ++ (base + k)%nat :: seq (S (base + k)) (15 - k).
Proof.
  intros Hk. replace 16%nat with (k + S (15 - k))%nat at 1 by lia.
  rewrite seq_app. reflexivity.
Qed.

(** The run of the seeder up to its channel number [k] (from 0), when no
    fault is due before that channel. *)
Lemma seeding_prefix (w : World) (k : nat) (rest_env : list (option Exc)) :
  all_groups_present w = true -> session_new w = [] -> (k < 16)%nat ->
  env w = replicate (2 * k) None ++ rest_env ->
  let base := length (heap w) in
  let plan := resolved_plan w in
  let w1 := set_heap (heap w ++ map planned_channel plan) w in
  let rows := number_rows (next_rowid (channels w)) (take k plan) in
  exists c g w2,
    plan !! k = Some (c, g) /\
    seed_channels w = (Ok (seq base k ++ (base + k)%nat :: seq (S (base + k)) (15 - k)), w1) /\
    for_each (seq base k) seed_one w1 = (Ok tt, w2) /\
    channels w2 = channels w ++ rows /\
    db_log w2 = db_log w ++ map (fun row => EvCommit [row]) rows /\
    stdout w2 = stdout w ++ map created_line rows /\
    session_new w2 = [] /\ groups w2 = groups w /\ fk_enforced w2 = fk_enforced w /\
    env w2 = rest_env /\
    (forall r, (base + k <= r)%nat -> heap w2 !! r = heap w1 !! r).
Proof.
  intros Hg Hs Hk Henv base plan w1 rows.
  pose proof (resolved_plan_length w : length plan = 16%nat) as Hp.
  destruct (lookup_lt_is_Some_2 plan k) as [[c g] Hplan]; [now rewrite Hp|].
  assert (Hlen : length (take k plan) = k).
  { apply length_take_le. rewrite Hp. lia. }
  assert (Hobjs : forall i c' g', take k plan !! i = Some (c', g') ->
            heap w1 !! (base + i)%nat = Some (mkChannel PNone (PStr c') (PDict []) (PInt g')) /\
            valid_group w1 g' = true).
  { intros i c' g' Hi. apply lookup_take_Some in Hi as [Hi _].
    exact (planned_objects w Hg i c' g' Hi). }
  assert (Hcalm : calm (2 * length (take k plan)) w1 = true).
  { rewrite Hlen. exact (calm_replicate _ rest_env w1 Henv). }
  destruct (seed_loop_created (take k plan) base w1 Hs Hcalm Hobjs)
    as (w2 & Hrun & Ht & Hl & Hout & Hs2 & Hg2).
  destruct (seed_loop_frame (take k plan) base w1 w2 Hs Hcalm Hobjs Hrun)
    as (Hfk & Henv2 & Hheap).
  rewrite Hlen in *.
  exists c, g, w2. split; [exact Hplan|]. split.
  { rewrite (seed_channels_ok w Hg). subst base.
    now rewrite (seq_split_at (length (heap w)) k Hk). }
  split; [exact Hrun|]. split; [exact Ht|]. split; [exact Hl|]. split; [exact Hout|].
  split; [exact Hs2|]. split; [exact Hg2|]. split; [exact Hfk|]. split.
  - rewrite Henv2. subst w1. cbn [env set_heap]. rewrite Henv.
    apply drop_app_length'. now rewrite length_replicate.
  - intros r Hr. apply Hheap. right. exact Hr.
Qed.

(** The channel number [k] of the seeder, in the world the channels
    before it have left, when the environment refuses its commit. *)
Lemma insert_refused_at (w w2 : World) (k : nat) (c : string) (g : Z) (e : Exc)
    (later : list (option Exc)) :
  all_groups_present w = true ->
  resolved_plan w !! k = Some (c, g) ->
  session_new w2 = [] -> env w2 = None :: Some e :: later ->
  (forall r, (length (heap w) + k <= r)%nat ->
     heap w2 !! r = (heap w ++ map planned_channel (resolved_plan w)) !! r) ->
  heap w2 !! (length (heap w) + k)%nat = Some (mkChannel PNone (PStr c) (PDict []) (PInt g)) /\
  insert_channel (length (heap w) + k)%nat w2 =
    (Raise e, mkWorld (heap w2) (groups w2) (channels w2) [(length (heap w) + k)%nat]
                      (stdout w2) later (fk_enforced w2) (db_log w2)).
Proof.
  intros Hg Hplan Hs Henv Hheap.
  assert (Hself : heap w2 !! (length (heap w) + k)%nat
                  = Some (mkChannel PNone (PStr c) (PDict []) (PInt g))).
  { rewrite Hheap by lia. exact (proj1 (planned_objects w Hg k c g Hplan)). }
  split; [exact Hself|].
  rewrite insert_channel_unfold.
  now rewrite (add_commit_refused _ _ e later w2 Hs Henv Hself eq_refl).
Qed.

(** X9. Rows committed before an error stay committed.  When the groups
    are present, the session is clean and the first fault of the
    environment is an exception [e], not an instance of the handler's
    [IntegrityError], raised by the commit of the channel number [k] (from
    0) of the list, [initChannels] raises [e] having written and reported
    exactly the [k] channels before it, each in its own commit. *)
Theorem seeding_keeps_rows_before_an_error (w : World) (k : nat) (e : Exc)
    (later : list (option Exc)) :
  all_groups_present w = true -> session_new w = [] -> (k < 16)%nat ->
  env w = replicate (2 * k) None ++ None :: Some e :: later ->
  isinstance e IntegrityError = false ->
  let rows := number_rows (next_rowid (channels w)) (take k (resolved_plan w)) in
  exists w',
    initChannels w = (Raise e, w') /\
    channels w' = channels w ++ rows /\
    stdout w' = stdout w ++ map created_line rows /\
    db_log w' = db_log w ++ map (fun row => EvCommit [row]) rows.
Proof.
  intros Hg Hs Hk Henv Hclass rows.
  destruct (seeding_prefix w k _ Hg Hs Hk Henv)
    as (c & g & w2 & Hplan & Hseed & Hrun & Ht & Hl & Hout & Hs2 & _ & _ & Henv2 & Hheap).
  destruct (insert_refused_at w w2 k c g e later Hg Hplan Hs2 Henv2 Hheap) as [_ Hins].
  eexists. split.
  - unfold initChannels, db_create_all, ret. unfold bind at 1 2. rewrite Hseed.
    rewrite for_each_app, Hrun. cbn [for_each]. unfold bind at 1.
    unfold seed_one, try_except. rewrite Hins, Hclass. reflexivity.
  - cbn [channels stdout db_log]. repeat split; assumption.
Qed.

Lemma seeding_keeps_rows_before_an_error_witness :
  let w := third_commit_fails database_is_locked in
  all_groups_present w = true /\ session_new w = [] /\ (2 < 16)%nat /\
  env w = replicate (2 * 2) None ++ [None; Some database_is_locked] /\
  isinstance database_is_locked IntegrityError = false /\
  exists w',
    initChannels w = (Raise database_is_locked, w') /\
    channels w' = [mkRow 1 "Announcements" (PDict []) 1; mkRow 2 "Events" (PDict []) 1] /\
    stdout w' = map created_line (channels w') /\
    db_log w' = map (fun row => EvCommit [row]) (channels w').
Proof.
  intros w. split; [reflexivity|]. split; [reflexivity|]. split; [lia|].
  split; [reflexivity|]. split; [reflexivity|].
  destruct (seeding_keeps_rows_before_an_error w 2 database_is_locked []
              eq_refl eq_refl ltac:(lia) eq_refl eq_refl)
    as (w' & Hrun & Ht & Hout & Hl).
  exists w'. split; [exact Hrun|]. rewrite Hout, Hl, Ht. conjuncts; evaluate.
Defined.

(** X10. One recognised conflict does not end the run.  When the groups
    are present, the session is clean and the only fault of the
    environment is an instance of the handler's [IntegrityError] raised by
    the commit of the channel number [k] (from 0), [initChannels] returns
    having written the fifteen other channels, in list order and under
    consecutive ids, each in its own commit, with one rollback between
    those before and those after, and having printed one line for each of
    the sixteen, the line of the skipped channel in its place. *)
Theorem seeding_goes_on_after_a_recognised_conflict (w : World) (k : nat) (e : Exc)
    (later : list (option Exc)) :
  all_groups_present w = true -> session_new w = [] -> (k < 16)%nat ->
  env w = replicate (2 * k) None ++ None :: Some e :: later ->
  calm (2 * (15 - k)) (set_env later w) = true ->
  isinstance e IntegrityError = true ->
  let plan := resolved_plan w in
  let n0 := next_rowid (channels w) in
  let before := number_rows n0 (take k plan) in
  let after := number_rows (n0 + Z.of_nat k) (drop (S k) plan) in
  exists c g w',
    plan !! k = Some (c, g) /\
    initChannels w = (Ok tt, w') /\
    channels w' = channels w ++ before ++ after /\
    stdout w' = stdout w ++ map created_line before
                ++ skipped_line (PStr c) :: map created_line after /\
    db_log w' = db_log w ++ map (fun row => EvCommit [row]) before
                ++ EvRollback :: map (fun row => EvCommit [row]) after.
Proof.
  intros Hg Hs Hk Henv Hcalm Hclass plan n0 before after.
  destruct (seeding_prefix w k _ Hg Hs Hk Henv)
    as (c & g & w2 & Hplan & Hseed & Hrun & Ht & Hl & Hout & Hs2 & Hg2 & Hfk2 & Henv2 & Hheap).
  destruct (insert_refused_at w w2 k c g e later Hg Hplan Hs2 Henv2 Hheap) as [Hself Hins].
  set (base := length (heap w)) in *.
  set (w4 := mkWorld (heap w2) (groups w2) (channels w2) []
                     (stdout w2 ++ [skipped_line (PStr c)]) later (fk_enforced w2)
                     (db_log w2 ++ [EvRollback])).
  assert (Hone : seed_one (base + k)%nat w2 = (Ok tt, w4)).
  { unfold seed_one, try_except. rewrite Hins, Hclass.
    match goal with |- skip_channel _ ?x = _ =>
      exact (skip_channel_run (base + k)%nat _ x Hself) end. }
  assert (Hlen : length (drop (S k) plan) = (15 - k)%nat).
  { rewrite length_drop. change (length plan) with 16%nat. lia. }
  destruct (seed_loop_created (drop (S k) plan) (S (base + k)) w4) as (w' & Hrest & Ht' & Hl' & Hout' & _).
  - reflexivity.
  - rewrite Hlen. exact Hcalm.
  - intros i c' g' Hi. rewrite lookup_drop in Hi.
    destruct (planned_objects w Hg _ c' g' Hi) as [Hobj Hv]. split.
    + subst w4. cbn [heap]. rewrite Hheap by lia. rewrite <- Hobj. f_equal. lia.
    + rewrite (valid_group_same w w4); [exact Hv | exact Hg2 | exact Hfk2].
  - rewrite Hlen in Hrest.
    assert (Hnext : next_rowid (channels w4) = n0 + Z.of_nat k).
    { subst w4. cbn [channels]. rewrite Ht. subst n0.
      rewrite next_rowid_number_rows. f_equal. f_equal.
      apply length_take_le. change (length (resolved_plan w)) with 16%nat. lia. }
    rewrite Hnext in Ht', Hl', Hout'. fold after in Ht', Hl', Hout'.
    exists c, g, w'. split; [exact Hplan|]. split.
    + unfold initChannels, db_create_all, ret. unfold bind at 1 2. rewrite Hseed.
      rewrite for_each_app, Hrun. cbn [for_each]. unfold bind at 1.
      fold base. now rewrite Hone.
    + subst w4. cbn [channels stdout db_log] in Ht', Hl', Hout'.
      rewrite Ht', Hl', Hout', Ht, Hl, Hout. fold before.
      rewrite <- !app_assoc. repeat split.
Qed.

Lemma seeding_goes_on_after_a_recognised_conflict_witness :
  let w := third_commit_fails sqlite_unique_conflict in
  all_groups_present w = true /\ session_new w = [] /\ (2 < 16)%nat /\
  env w = replicate (2 * 2) None ++ [None; Some sqlite_unique_conflict] /\
  calm (2 * (15 - 2)) (set_env [] w) = true /\
  isinstance sqlite_unique_conflict IntegrityError = true /\
  exists w',
    initChannels w = (Ok tt, w') /\
    map (fun row => (col_id row, col_name row)) (channels w') =
      [(1, "Announcements"); (2, "Events"); (3, "Help Desk"); (4, "Penpal Letters");
       (5, "Game vs Poway"); (6, "Game vs Westview"); (7, "Math"); (8, "English");
       (9, "Artist"); (10, "Music Genre"); (11, "Humor"); (12, "Memes"); (13, "Irony");
       (14, "Cyber Patriots"); (15, "Robotics")] /\
    nth 2 (stdout w') "" = "Records exist, duplicate email, or error: FAQ" /\
    count_rollbacks (db_log w') = 1%nat.
Proof.
  intros w. split; [reflexivity|]. split; [reflexivity|]. split; [lia|].
  split; [reflexivity|]. split; [reflexivity|]. split; [reflexivity|].
  destruct (seeding_goes_on_after_a_recognised_conflict w 2 sqlite_unique_conflict []
              eq_refl eq_refl ltac:(lia) eq_refl eq_refl eq_refl)
    as (c & g & w' & Hplan & Hrun & Ht & Hout & Hl).
  exists w'. split; [exact Hrun|]. rewrite Hout, Hl, Ht.
  vm_compute in Hplan. inversion Hplan; subst c g. conjuncts; evaluate.
Defined.

(** ** The seeder, whatever the faults *)

Lemma count_rollbacks_rollback (log : list DbEvent) :
  count_rollbacks (log ++ [EvRollback]) = S (count_rollbacks log).
Proof. unfold count_rollbacks. rewrite List.filter_app, length_app. cbn. lia. Qed.

Lemma count_rollbacks_commit (log : list DbEvent) (rows : list Row) :
  count_rollbacks (log ++ [EvCommit rows]) = count_rollbacks log.
Proof. unfold count_rollbacks. rewrite List.filter_app, length_app. cbn. lia. Qed.

Lemma forallb_false_exists {A : Type} (f : A -> bool) (l : list A) :
  forallb f l = false -> exists x, In x l /\ f x = false.
Proof.
  induction l as [|x l IH]; cbn; [discriminate|].
  destruct (f x) eqn:Hx; cbn.
  - intros H. destruct (IH H) as (y & Hy & Hf). exists y. split; [now right | exact Hf].
  - intros _. exists x. split; [now left | exact Hx].
Qed.

(** [seed_channels] returns only when every group is there. *)
Lemma seed_channels_returns (w w0 : World) (cs : list ref) :
  seed_channels w = (Ok cs, w0) -> all_groups_present w = true.
Proof.
  intros Hrun. destruct (all_groups_present w) eqn:Hg; [reflexivity|].
  apply forallb_false_exists in Hg as (n & Hin & Hn).
  destruct (Group_first n (groups w)) eqn:Hfirst; [discriminate|].
  destruct (seed_channels_missing_group w n Hin Hfirst) as [h Hraise].
  rewrite Hraise in Hrun. discriminate.
Qed.

(** One turn of the loop on an object that has no id yet, in a clean
    session, whatever the environment does: no other object is touched;
    and when the turn returns, the session is clean again, one line has
    been printed, and the channel has been either written as one row or
    rolled back. *)
Lemma seed_one_outcomes (c : ref) (o : ChannelObj) (w w' : World) (res : Result unit) :
  session_new w = [] -> heap w !! c = Some o -> id_ o = PNone ->
  seed_one c w = (res, w') ->
  (forall r, r <> c -> heap w' !! r = heap w !! r) /\
  (exists o', heap w' !! c = Some o') /\
  (res = Ok tt ->
   session_new w' = [] /\
   length (stdout w') = S (length (stdout w)) /\
   (length (channels w') + count_rollbacks (db_log w')
    = S (length (channels w) + count_rollbacks (db_log w)))%nat).
Proof.
  intros Hs Hself Hid. unfold seed_one, try_except. rewrite insert_channel_unfold.
  destruct (add_commit_cases c w)
    as [(h & rows & Hflush & Hbody & _)|(e & w1 & Hbody & Hh & _ & Ht & Hout & _ & Hl)];
    rewrite Hbody.
  - unfold pending_after_add in Hflush. rewrite Hself, Hid, Hs in Hflush.
    cbn [is_none andb existsb negb app flush] in Hflush.
    rewrite Hself, Hid in Hflush. cbn [is_none] in Hflush.
    destruct (insert_row (fk_enforced w) (groups w) (next_rowid (channels w ++ [])) o)
      as [e|row]; [discriminate|].
    inversion Hflush; subst h rows. clear Hflush.
    assert (Hnew : <[c := with_id (col_id row) o]> (heap w) !! c
                   = Some (with_id (col_id row) o)).
    { apply list_lookup_insert_eq. now apply lookup_lt_Some in Hself. }
    unfold bind, Channel_repr, bind. erewrite deref_lookup by exact Hnew.
    cbn [ret print]. intros Hrun. inversion Hrun; subst res w'. clear Hrun.
    cbn [heap session_new stdout channels db_log set_stdout].
    split; [intros r Hr; now apply list_lookup_insert_ne|].
    split; [eexists; exact Hnew|]. intros _.
    split; [reflexivity|]. rewrite !length_app, count_rollbacks_commit. cbn [length].
    split; lia.
  - assert (Hself1 : heap w1 !! c = Some o) by now rewrite Hh.
    destruct (isinstance e IntegrityError).
    + rewrite (skip_channel_run _ _ _ Hself1). intros Hrun.
      inversion Hrun; subst res w'. clear Hrun.
      cbn [heap session_new stdout channels db_log].
      split; [intros r _; now rewrite Hh|].
      split; [eexists; exact Hself1|]. intros _.
      split; [reflexivity|].
      rewrite length_app, count_rollbacks_rollback, Ht, Hout, Hl. cbn [length].
      split; lia.
    + intros Hrun. inversion Hrun; subst res w'. clear Hrun.
      split; [intros r _; now rewrite Hh|].
      split; [eexists; exact Hself1|]. discriminate.
Qed.

Lemma seed_loop_accounts (n : nat) :
  forall (base : nat) (w w' : World),
    session_new w = [] ->
    (forall i, (i < n)%nat -> exists o, heap w !! (base + i)%nat = Some o /\ id_ o = PNone) ->
    for_each (seq base n) seed_one w = (Ok tt, w') ->
    session_new w' = [] /\
    length (stdout w') = (length (stdout w) + n)%nat /\
    (length (channels w') + count_rollbacks (db_log w')
     = length (channels w) + count_rollbacks (db_log w) + n)%nat.
Proof.
  induction n as [|n IH]; intros base w w' Hs Hobjs Hrun.
  - cbn in Hrun. inversion Hrun; subst. repeat split; try assumption; lia.
  - cbn [seq for_each] in Hrun. unfold bind at 1 in Hrun.
    destruct (seed_one base w) as [[[]|e] w1] eqn:Hone; [|discriminate].
    destruct (Hobjs 0%nat ltac:(lia)) as (o & Hself & Hid).
    rewrite Nat.add_0_r in Hself.
    destruct (seed_one_outcomes base o w w1 _ Hs Hself Hid Hone) as (Hother & _ & Hok).
    destruct (Hok eq_refl) as (Hs1 & Hout1 & Hacc1).
    destruct (IH (S base) w1 w' Hs1) as (Hs' & Hout' & Hacc'); [|exact Hrun|].
    + intros i Hi. destruct (Hobjs (S i) ltac:(lia)) as (o' & Ho' & Hid').
      exists o'. split; [|exact Hid'].
      rewrite Hother by lia. now replace (S base + i)%nat with (base + S i)%nat by lia.
    + split; [exact Hs'|]. split; lia.
Qed.

(** X11. Every channel is accounted for.  Whatever faults the
    environment has in store, when [initChannels] starts in a clean
    session and returns, it has printed exactly sixteen lines, each of the
    sixteen channels has been either written (one row) or rolled back,
    and the session is clean again. *)
Theorem every_channel_is_committed_or_skipped (w w' : World) :
  session_new w = [] -> initChannels w = (Ok tt, w') ->
  session_new w' = [] /\
  length (stdout w') = (length (stdout w) + 16)%nat /\
  (length (channels w') + count_rollbacks (db_log w')
   = length (channels w) + count_rollbacks (db_log w) + 16)%nat.
Proof.
  intros Hs Hrun.
  unfold initChannels, db_create_all, ret in Hrun. unfold bind at 1 2 in Hrun.
  destruct (seed_channels w) as [[cs|e] w0] eqn:Hseed; [|discriminate].
  pose proof (seed_channels_returns _ _ _ Hseed) as Hg.
  rewrite (seed_channels_ok w Hg) in Hseed. injection Hseed as <- <-.
  apply (seed_loop_accounts 16 (length (heap w))
           (set_heap (heap w ++ map planned_channel (resolved_plan w)) w) w');
    [exact Hs | | exact Hrun].
  intros i Hi.
  destruct (lookup_lt_is_Some_2 (resolved_plan w) i) as [[c g] Hplan];
    [now rewrite resolved_plan_length|].
  eexists. split; [exact (proj1 (planned_objects w Hg i c g Hplan)) | reflexivity].
Qed.

Lemma every_channel_is_committed_or_skipped_witness :
  let w := third_commit_fails sqlite_unique_conflict in
  let w' := snd (initChannels w) in
  session_new w = [] /\ initChannels w = (Ok tt, w') /\
  session_new w' = [] /\
  length (stdout w') = (length (stdout w) + 16)%nat /\
  (length (channels w') + count_rollbacks (db_log w')
   = length (channels w) + count_rollbacks (db_log w) + 16)%nat.
Proof.
  intros w w'. split; [reflexivity|].
  assert (Hrun : initChannels w = (Ok tt, w')) by evaluate.
  split; [exact Hrun|].
  exact (every_channel_is_committed_or_skipped w w' eq_refl Hrun).
Defined.
